(** * ServerSocket: a shallow embedding of wdt's listening-socket class

    The class [facebook::wdt::ServerSocket] (ServerSocket.cpp) owns two kernel
    descriptors, a listening socket and the currently accepted connection.
    Its methods are embedded as functions in a small state-and-trace monad
    over an abstract operating system: every system call and every call of a
    collaborator (SocketUtils, the clock) is answered by the operating system
    and recorded, with its arguments and its answer, in the trace of the call.
    The object itself is an explicit record that each method takes and
    returns. *)

From Stdlib Require Import ZArith List String Bool Lia.
Import ListNotations.
Local Open Scope Z_scope.

(** ** Constants of the platform headers (Linux values) *)

Definition AF_INET : Z := 2.
Definition AF_INET6 : Z := 10.
Definition SOCK_STREAM : Z := 1.
Definition AI_PASSIVE : Z := 1.
Definition POLLIN : Z := 1.
Definition EINTR : Z := 4.

(** [ErrorCode] of ErrorCodes.h, restricted to the values this file returns. *)
Inductive ErrorCode : Type :=
| OK
| CONN_ERROR
| CONN_ERROR_RETRYABLE.

Definition ErrorCode_eqb (a b : ErrorCode) : bool :=
  match a, b with
  | OK, OK | CONN_ERROR, CONN_ERROR
  | CONN_ERROR_RETRYABLE, CONN_ERROR_RETRYABLE => true
  | _, _ => false
  end.

(** ** Data *)

(** A pointer the class only stores and passes on (buffers, the abort
    checker); 0 is the null pointer. *)
Definition Ptr : Type := Z.

(** [struct addrinfo]: the scalar fields, and [ai_addr] as an opaque handle on
    the socket address. The [ai_next] chain is the Rocq list that
    [getaddrinfo] returns. *)
Record addrinfo : Type := mkAddrinfo {
  ai_flags : Z;
  ai_family : Z;
  ai_socktype : Z;
  ai_protocol : Z;
  ai_addrlen : Z;
  ai_addr : Ptr
}.

(** [memset(&sa_, 0, sizeof(sa_))] *)
Definition addrinfo_zero : addrinfo := mkAddrinfo 0 0 0 0 0 0.

Definition set_ai_family (v : Z) (a : addrinfo) : addrinfo :=
  mkAddrinfo (ai_flags a) v (ai_socktype a) (ai_protocol a)
             (ai_addrlen a) (ai_addr a).
Definition set_ai_socktype (v : Z) (a : addrinfo) : addrinfo :=
  mkAddrinfo (ai_flags a) (ai_family a) v (ai_protocol a)
             (ai_addrlen a) (ai_addr a).
Definition set_ai_flags (v : Z) (a : addrinfo) : addrinfo :=
  mkAddrinfo v (ai_family a) (ai_socktype a) (ai_protocol a)
             (ai_addrlen a) (ai_addr a).

(** The two options of [WdtOptions] the constructor reads. *)
Record WdtOptions : Type := mkOptions {
  ipv6 : bool;
  ipv4 : bool
}.

(** The data members of the class. *)
Record ServerSocket : Type := mkServerSocket {
  port_ : Z;
  backlog_ : Z;
  listeningFd_ : Z;
  fd_ : Z;
  sa_ : addrinfo;
  abortChecker_ : Ptr
}.

Definition set_port (v : Z) (s : ServerSocket) : ServerSocket :=
  mkServerSocket v (backlog_ s) (listeningFd_ s) (fd_ s) (sa_ s)
                 (abortChecker_ s).
Definition set_listeningFd (v : Z) (s : ServerSocket) : ServerSocket :=
  mkServerSocket (port_ s) (backlog_ s) v (fd_ s) (sa_ s) (abortChecker_ s).
Definition set_fd (v : Z) (s : ServerSocket) : ServerSocket :=
  mkServerSocket (port_ s) (backlog_ s) (listeningFd_ s) v (sa_ s)
                 (abortChecker_ s).
Definition set_sa (v : addrinfo) (s : ServerSocket) : ServerSocket :=
  mkServerSocket (port_ s) (backlog_ s) (listeningFd_ s) (fd_ s) v
                 (abortChecker_ s).
Definition set_abortChecker (v : Ptr) (s : ServerSocket) : ServerSocket :=
  mkServerSocket (port_ s) (backlog_ s) (listeningFd_ s) (fd_ s) (sa_ s) v.

(** ** Effects *)

Inductive Severity : Type :=
| VERBOSE   (* VLOG(1) *)
| WARNING
| ERROR.

(** What a call does to the outside world, in program order. A system call is
    recorded with its arguments and with the value it returned. *)
Inductive Event : Type :=
| EvGetaddrinfo (port : Z) (hints : addrinfo) (res : Z) (found : list addrinfo)
| EvFreeaddrinfo
| EvSocket (family socktype protocol : Z) (ret : Z)
| EvBind (fd : Z) (addr : Ptr) (addrlen : Z) (ret : Z)
| EvGetsockname (fd : Z) (ret : Z) (sin_port : Z)
| EvListen (fd : Z) (backlog : Z) (ret : Z)
| EvClose (fd : Z) (ret : Z)
| EvNow (t : Z)
| EvPoll (fd : Z) (events : Z) (timeout : Z) (ret : Z) (errno : Z)
| EvAccept (fd : Z) (ret : Z)
| EvSetReadTimeout (fd : Z)
| EvSetWriteTimeout (fd : Z)
| EvRead (fd : Z) (buf : Ptr) (nbyte : Z) (checker : Ptr) (tryFull : bool)
         (ret : Z)
| EvWrite (fd : Z) (buf : Ptr) (nbyte : Z) (checker : Ptr) (tryFull : bool)
          (ret : Z)
| EvLog (sev : Severity) (msg : string) (args : list Z).

(** The operating system and the collaborators, as the class sees them: each
    call is a function of the state [K] of the outside world. [errno] is read
    from that state, as the code reads the global after [poll].
    [getaddrinfo] takes the port (the code passes it in decimal) and the
    hints, and answers with its return value and the candidates;
    [getsockname] answers with its return value and [sin_port] in network
    byte order. [os_now] is [Clock::now()], in ticks, and [durationMillis]
    is the function of that name, from a header of the project, on a
    difference of two readings. The last four are the calls into
    [SocketUtils]. *)
Class OS (K : Type) : Type := {
  os_getaddrinfo : Z -> addrinfo -> K -> (Z * list addrinfo) * K;
  os_freeaddrinfo : K -> K;
  os_socket : Z -> Z -> Z -> K -> Z * K;
  os_bind : Z -> Ptr -> Z -> K -> Z * K;
  os_getsockname : Z -> K -> (Z * Z) * K;
  os_listen : Z -> Z -> K -> Z * K;
  os_close : Z -> K -> Z * K;
  os_accept : Z -> K -> Z * K;
  os_poll : Z -> Z -> Z -> K -> Z * K;
  os_errno : K -> Z;
  os_now : K -> Z * K;
  durationMillis : Z -> Z;
  os_setReadTimeout : Z -> K -> K;
  os_setWriteTimeout : Z -> K -> K;
  os_readWithAbortCheck : Z -> Ptr -> Z -> Ptr -> bool -> K -> Z * K;
  os_writeWithAbortCheck : Z -> Ptr -> Z -> Ptr -> bool -> K -> Z * K
}.

(** [ntohs] on a little-endian host: the two bytes of a 16-bit value swapped. *)
Definition ntohs (x : Z) : Z :=
  Z.lor (Z.shiftl (Z.land x 255) 8) (Z.land (Z.shiftr x 8) 255).

(** Conversion of a wider integer to [int]. *)
Definition to_int (z : Z) : Z := (z + 2 ^ 31) mod 2 ^ 32 - 2 ^ 31.

(** A computation: from the state of the outside world to a result, the new
    state and the events of the call. *)
Definition Eff (K A : Type) : Type := K -> A * K * list Event.

Definition ret {K A : Type} (a : A) : Eff K A := fun k => (a, k, []).

Definition bind {K A B : Type} (m : Eff K A) (f : A -> Eff K B) : Eff K B :=
  fun k =>
    let '(a, k1, e1) := m k in
    let '(b, k2, e2) := f a k1 in
    (b, k2, e1 ++ e2).

Declare Scope eff_scope.
Delimit Scope eff_scope with eff.
Notation "x <- m ;; f" := (bind m (fun x => f))
  (at level 61, m at next level, right associativity) : eff_scope.
Notation "' pat <- m ;; f" := (bind m (fun x => match x with pat => f end))
  (at level 61, pat pattern, m at next level, right associativity) : eff_scope.
Notation "m ;; f" := (bind m (fun _ => f))
  (at level 61, right associativity) : eff_scope.

(** The events, state and result of a computation. *)
Definition events_of {K A : Type} (r : A * K * list Event) : list Event := snd r.
Definition world_of {K A : Type} (r : A * K * list Event) : K := snd (fst r).
Definition value_of {K A : Type} (r : A * K * list Event) : A := fst (fst r).

(** The descriptors a trace closes, in order. *)
Fixpoint closed_fds (evs : list Event) : list Z :=
  match evs with
  | [] => []
  | EvClose fd _ :: rest => fd :: closed_fds rest
  | _ :: rest => closed_fds rest
  end.

Definition is_syscall (e : Event) : bool :=
  match e with
  | EvLog _ _ _ => false
  | _ => true
  end.

(** The trace without its log lines. *)
Definition syscalls (evs : list Event) : list Event := filter is_syscall evs.

Definition is_error_log (e : Event) : bool :=
  match e with
  | EvLog ERROR _ _ => true
  | _ => false
  end.

(** The events the candidate loop of [listen] can produce. *)
Definition is_bind_phase_event (e : Event) : bool :=
  match e with
  | EvLog _ _ _ | EvSocket _ _ _ _ | EvBind _ _ _ _
  | EvGetsockname _ _ _ | EvClose _ _ => true
  | _ => false
  end.

(** The [(family, socktype, protocol)] of the [socket] calls of a trace. *)
Fixpoint socket_calls (evs : list Event) : list (Z * Z * Z) :=
  match evs with
  | [] => []
  | EvSocket f t p _ :: rest => (f, t, p) :: socket_calls rest
  | _ :: rest => socket_calls rest
  end.

Definition socket_args (info : addrinfo) : Z * Z * Z :=
  (ai_family info, ai_socktype info, ai_protocol info).

(** A [poll] that returned without an event and left [errno] at [EINTR]. *)
Definition is_interrupted_poll (e : Event) : bool :=
  match e with
  | EvPoll _ _ _ r errno => (r <=? 0) && (errno =? EINTR)
  | _ => false
  end.

Definition interrupted_polls (evs : list Event) : list Event :=
  filter is_interrupted_poll evs.

Section Model.
Context {K : Type} `{OS K}.
Local Open Scope eff_scope.

(** *** The calls, each recording its event *)

Definition log (sev : Severity) (msg : string) (args : list Z) : Eff K unit :=
  fun k => (tt, k, [EvLog sev msg args]).

Definition sys_getaddrinfo (port : Z) (hints : addrinfo)
  : Eff K (Z * list addrinfo) :=
  fun k => let '(r, k') := os_getaddrinfo port hints k in
           (r, k', [EvGetaddrinfo port hints (fst r) (snd r)]).

Definition sys_freeaddrinfo : Eff K unit :=
  fun k => (tt, os_freeaddrinfo k, [EvFreeaddrinfo]).

Definition sys_socket (family socktype protocol : Z) : Eff K Z :=
  fun k => let '(r, k') := os_socket family socktype protocol k in
           (r, k', [EvSocket family socktype protocol r]).

Definition sys_bind (fd : Z) (addr : Ptr) (len : Z) : Eff K Z :=
  fun k => let '(r, k') := os_bind fd addr len k in
           (r, k', [EvBind fd addr len r]).

Definition sys_getsockname (fd : Z) : Eff K (Z * Z) :=
  fun k => let '(r, k') := os_getsockname fd k in
           (r, k', [EvGetsockname fd (fst r) (snd r)]).

Definition sys_listen (fd backlog : Z) : Eff K Z :=
  fun k => let '(r, k') := os_listen fd backlog k in
           (r, k', [EvListen fd backlog r]).

Definition sys_close (fd : Z) : Eff K Z :=
  fun k => let '(r, k') := os_close fd k in (r, k', [EvClose fd r]).

Definition sys_accept (fd : Z) : Eff K Z :=
  fun k => let '(r, k') := os_accept fd k in (r, k', [EvAccept fd r]).

(** [poll] on one descriptor, and the value of [errno] after it. *)
Definition sys_poll (fd events timeout : Z) : Eff K (Z * Z) :=
  fun k => let '(r, k') := os_poll fd events timeout k in
           ((r, os_errno k'), k', [EvPoll fd events timeout r (os_errno k')]).

Definition clock_now : Eff K Z :=
  fun k => let '(t, k') := os_now k in (t, k', [EvNow t]).

Definition setReadTimeout (fd : Z) : Eff K unit :=
  fun k => (tt, os_setReadTimeout fd k, [EvSetReadTimeout fd]).

Definition setWriteTimeout (fd : Z) : Eff K unit :=
  fun k => (tt, os_setWriteTimeout fd k, [EvSetWriteTimeout fd]).

Definition readWithAbortCheck (fd : Z) (buf : Ptr) (nbyte : Z) (chk : Ptr)
           (tryFull : bool) : Eff K Z :=
  fun k => let '(r, k') := os_readWithAbortCheck fd buf nbyte chk tryFull k in
           (r, k', [EvRead fd buf nbyte chk tryFull r]).

Definition writeWithAbortCheck (fd : Z) (buf : Ptr) (nbyte : Z) (chk : Ptr)
           (tryFull : bool) : Eff K Z :=
  fun k => let '(r, k') := os_writeWithAbortCheck fd buf nbyte chk tryFull k in
           (r, k', [EvWrite fd buf nbyte chk tryFull r]).

(** *** Construction and move *)

(** [ServerSocket::ServerSocket(port, backlog, abortChecker)] *)
Definition ServerSocket_new (options : WdtOptions) (port backlog : Z)
           (abortChecker : Ptr) : ServerSocket :=
  let sa := addrinfo_zero in
  let sa := if ipv6 options then set_ai_family AF_INET6 sa else sa in
  let sa := if ipv4 options then set_ai_family AF_INET sa else sa in
  let sa := set_ai_socktype SOCK_STREAM sa in
  let sa := set_ai_flags AI_PASSIVE sa in
  mkServerSocket port backlog (-1) (-1) sa abortChecker.

(** [ServerSocket::ServerSocket(ServerSocket &&that)]: the new object and
    what is left of [that]. *)
Definition move_construct (that : ServerSocket)
  : ServerSocket * ServerSocket :=
  let this :=
    mkServerSocket (port_ that) (backlog_ that) (listeningFd_ that)
                   (fd_ that) (sa_ that) (abortChecker_ that) in
  let that := set_listeningFd (-1) that in
  let that := set_fd (-1) that in
  let that := set_port (-1) that in
  (this, that).

(** [ServerSocket::operator=(ServerSocket &&that)]: five [swap]s; the
    backlog is not among them. Returns [this] and [that] after the call. *)
Definition move_assign (this that : ServerSocket)
  : ServerSocket * ServerSocket :=
  let '(this, that) :=
    (set_port (port_ that) this, set_port (port_ this) that) in
  let '(this, that) := (set_sa (sa_ that) this, set_sa (sa_ this) that) in
  let '(this, that) :=
    (set_listeningFd (listeningFd_ that) this,
     set_listeningFd (listeningFd_ this) that) in
  let '(this, that) := (set_fd (fd_ that) this, set_fd (fd_ this) that) in
  let '(this, that) :=
    (set_abortChecker (abortChecker_ that) this,
     set_abortChecker (abortChecker_ this) that) in
  (this, that).

(** *** Teardown *)

(** [ServerSocket::closeAll] *)
Definition closeAll (this : ServerSocket) : Eff K ServerSocket :=
  log VERBOSE "Destroying server socket (port, listen fd, fd)"
      [port_ this; listeningFd_ this; fd_ this] ;;
  this <- (if 0 <=? fd_ this then
             r <- sys_close (fd_ this) ;;
             (if negb (r =? 0) then
                log ERROR "Error closing fd for server socket. fd: "
                    [fd_ this; port_ this]
              else ret tt) ;;
             ret (set_fd (-1) this)
           else ret this) ;;
  (if 0 <=? listeningFd_ this then
     r <- sys_close (listeningFd_ this) ;;
     (if negb (r =? 0) then
        log ERROR
            "Error closing listening fd for server socket. listeningFd: "
            [listeningFd_ this; port_ this]
      else ret tt) ;;
     ret (set_listeningFd (-1) this)
   else ret this).

(** [ServerSocket::~ServerSocket] *)
Definition destroy (this : ServerSocket) : Eff K ServerSocket :=
  closeAll this.

(** [ServerSocket::closeCurrentConnection] *)
Definition closeCurrentConnection (this : ServerSocket)
  : Eff K (Z * ServerSocket) :=
  let retValue := 0 in
  if 0 <=? fd_ this then
    retValue <- sys_close (fd_ this) ;;
    ret (retValue, set_fd (-1) this)
  else ret (retValue, this).

(** *** Bind and listen *)

(** The end of one turn of the candidate loop of [listen], after a bind
    that succeeded (and after the port was found, when it was asked for):
    lines 136-138, up to [break]. *)
Definition bindSucceeded (info : addrinfo) (this : ServerSocket)
  : Eff K ServerSocket :=
  log VERBOSE "Successful bind on " [listeningFd_ this] ;;
  ret (set_sa info this).

(** The [for] loop of [listen] over the candidates of [getaddrinfo].
    [continue] is the recursive call on the remaining candidates, [break]
    is returning. *)
Fixpoint bindLoop (infoList : list addrinfo) (this : ServerSocket)
  : Eff K ServerSocket :=
  match infoList with
  | [] => ret this
  | info :: rest =>
    log VERBOSE "Will listen on " [ai_addr info; ai_addrlen info] ;;
    fd <- sys_socket (ai_family info) (ai_socktype info) (ai_protocol info) ;;
    let this := set_listeningFd fd this in
    if listeningFd_ this =? -1 then
      log WARNING "Error making server socket" [] ;;
      bindLoop rest this
    else
      r <- sys_bind (listeningFd_ this) (ai_addr info) (ai_addrlen info) ;;
      if negb (r =? 0) then
        log WARNING "Error binding " [port_ this] ;;
        _ <- sys_close (listeningFd_ this) ;;
        bindLoop rest (set_listeningFd (-1) this)
      else if port_ this =? 0 then
        ' (r, sin_port) <- sys_getsockname (listeningFd_ this) ;;
        if r =? -1 then
          log ERROR "getsockname" [] ;;
          bindLoop rest this
        else
          log VERBOSE "auto configuring port to " [ntohs sin_port] ;;
          bindSucceeded info (set_port (ntohs sin_port) this)
      else bindSucceeded info this
  end.

(** [ServerSocket::listen] *)
Definition listen (this : ServerSocket) : Eff K (ErrorCode * ServerSocket) :=
  if 0 <? listeningFd_ this then ret (OK, this)
  else
    ' (res, infoList) <- sys_getaddrinfo (port_ this) (sa_ this) ;;
    if negb (res =? 0) then
      log ERROR "Failed getaddrinfo ai_passive on " [port_ this; res] ;;
      ret (CONN_ERROR, this)
    else
      this <- bindLoop infoList this ;;
      sys_freeaddrinfo ;;
      if listeningFd_ this <=? 0 then
        log ERROR "Unable to bind port " [port_ this] ;;
        ret (CONN_ERROR_RETRYABLE, this)
      else
        r <- sys_listen (listeningFd_ this) (backlog_ this) ;;
        if negb (r =? 0) then
          log ERROR "listen error for port " [port_ this] ;;
          _ <- sys_close (listeningFd_ this) ;;
          ret (CONN_ERROR_RETRYABLE, set_listeningFd (-1) this)
        else ret (OK, this).

(** *** Accept *)

(** How the [while (true)] loop of [acceptNextConnection] is left: by
    [break], by [return], or not within the given number of turns. *)
Inductive LoopExit : Type :=
| LoopBreak
| LoopReturn (code : ErrorCode)
| LoopRunning.

(** [int timeElapsed = durationMillis(Clock::now() - startTime)], for the
    reading [now] of the clock. *)
Definition elapsedMillis (startTime now : Z) : Z :=
  to_int (durationMillis (now - startTime)).

(** One turn of the loop: [None] is [continue]. [pollTimeout] is an [int]
    computed from two [int]s. *)
Definition pollOnce (timeoutMillis startTime : Z) (this : ServerSocket)
  : Eff K (option LoopExit) :=
  now <- clock_now ;;
  let timeElapsed := elapsedMillis startTime now in
  if timeoutMillis <=? timeElapsed then
    log ERROR "accept() timed out" [] ;;
    ret (Some (LoopReturn CONN_ERROR))
  else
    let pollTimeout := to_int (timeoutMillis - timeElapsed) in
    ' (retValue, errno) <- sys_poll (listeningFd_ this) POLLIN pollTimeout ;;
    if retValue <=? 0 then
      if errno =? EINTR then
        log VERBOSE "poll() call interrupted. retrying..." [] ;;
        ret None
      else
        (if retValue =? 0 then
           log VERBOSE "poll() timed out " [port_ this; listeningFd_ this]
         else
           log ERROR "poll() failed " [port_ this; listeningFd_ this]) ;;
        ret (Some (LoopReturn CONN_ERROR))
    else ret (Some LoopBreak).

(** The loop, for at most [fuel] turns. *)
Fixpoint pollLoop (fuel : nat) (timeoutMillis startTime : Z)
         (this : ServerSocket) : Eff K LoopExit :=
  match fuel with
  | O => ret LoopRunning
  | S fuel' =>
    e <- pollOnce timeoutMillis startTime this ;;
    match e with
    | Some exit => ret exit
    | None => pollLoop fuel' timeoutMillis startTime this
    end
  end.

(** The end of [acceptNextConnection], from the [accept] call on. *)
Definition acceptTail (this : ServerSocket)
  : Eff K (ErrorCode * ServerSocket) :=
  fd <- sys_accept (listeningFd_ this) ;;
  let this := set_fd fd this in
  if fd_ this <? 0 then
    log ERROR "accept error" [] ;;
    ret (CONN_ERROR, this)
  else
    log VERBOSE "new connection " [fd_ this] ;;
    setReadTimeout (fd_ this) ;;
    setWriteTimeout (fd_ this) ;;
    ret (OK, this).

(** [ServerSocket::acceptNextConnection]; [None] when the wait loop is
    still running after [fuel] turns. *)
Definition acceptNextConnection (fuel : nat) (timeoutMillis : Z)
           (this : ServerSocket) : Eff K (option (ErrorCode * ServerSocket)) :=
  ' (code, this) <- listen this ;;
  if negb (ErrorCode_eqb code OK) then ret (Some (code, this))
  else
    exit <- (if 0 <? timeoutMillis then
               startTime <- clock_now ;;
               pollLoop fuel timeoutMillis startTime this
             else ret LoopBreak) ;;
    match exit with
    | LoopRunning => ret None
    | LoopReturn code => ret (Some (code, this))
    | LoopBreak =>
      r <- acceptTail this ;;
      ret (Some r)
    end.

(** *** The relay *)

(** [ServerSocket::read] *)
Definition read (this : ServerSocket) (buf : Ptr) (nbyte : Z)
           (tryFull : bool) : Eff K (Z * ServerSocket) :=
  r <- readWithAbortCheck (fd_ this) buf nbyte (abortChecker_ this) tryFull ;;
  ret (r, this).

(** [ServerSocket::write] *)
Definition write (this : ServerSocket) (buf : Ptr) (nbyte : Z)
           (tryFull : bool) : Eff K (Z * ServerSocket) :=
  r <- writeWithAbortCheck (fd_ this) buf nbyte (abortChecker_ this) tryFull ;;
  ret (r, this).

(** *** Accessors *)

Definition getListenFd (this : ServerSocket) : Z := listeningFd_ this.

Definition getFd (this : ServerSocket) : Eff K Z :=
  log VERBOSE "fd is " [fd_ this] ;;
  ret (fd_ this).

Definition getPort (this : ServerSocket) : Z := port_ this.

Definition getBackLog (this : ServerSocket) : Z := backlog_ this.

End Model.

(** ** The bounded wait, as a property of traces

    The system calls of a wait for a connection with the budget [t], on the
    descriptor [lfd], and how the wait ends. Each turn reads the clock; with
    the budget used up the wait returns [CONN_ERROR]; otherwise it polls for
    what is left of the budget, the difference of two [int]s as an [int].
    A poll that reports the descriptor readable ends the wait, one that
    fails or times out returns [CONN_ERROR], and one that was interrupted
    ([EINTR]) is followed by another turn. [elapsed] gives the milliseconds
    since the start for a reading of the clock. *)
Inductive wait_trace (elapsed : Z -> Z) (t lfd : Z)
  : list Event -> LoopExit -> Prop :=
| wait_running :
    wait_trace elapsed t lfd [] LoopRunning
| wait_exhausted (now : Z) :
    t <= elapsed now ->
    wait_trace elapsed t lfd [EvNow now] (LoopReturn CONN_ERROR)
| wait_readable (now r errno : Z) :
    elapsed now < t -> 0 < r ->
    wait_trace elapsed t lfd
               [EvNow now;
                EvPoll lfd POLLIN (to_int (t - elapsed now)) r errno]
               LoopBreak
| wait_failed (now r errno : Z) :
    elapsed now < t -> r <= 0 -> errno <> EINTR ->
    wait_trace elapsed t lfd
               [EvNow now;
                EvPoll lfd POLLIN (to_int (t - elapsed now)) r errno]
               (LoopReturn CONN_ERROR)
| wait_interrupted (now r : Z) (rest : list Event) (exit : LoopExit) :
    elapsed now < t -> r <= 0 ->
    wait_trace elapsed t lfd rest exit ->
    wait_trace elapsed t lfd
               (EvNow now
                  :: EvPoll lfd POLLIN (to_int (t - elapsed now)) r EINTR
                  :: rest)
               exit.

(** Why a wait returned [CONN_ERROR], read off its last system call: the
    clock showed the budget used up, or [poll] on [lfd] brought no event and
    an [errno] other than [EINTR]. *)
Definition wait_failure_cause (elapsed : Z -> Z) (t lfd : Z) (e : Event)
  : Prop :=
  match e with
  | EvNow now => t <= elapsed now
  | EvPoll fd _ _ r errno => fd = lfd /\ r <= 0 /\ errno <> EINTR
  | _ => False
  end.

(** ** A scripted operating system

    An operating system whose answers are read off a list, one per call, in
    the order of the calls: it makes the methods computable on concrete
    scenarios. [getsockname] reads two answers (the return value and the port
    in network byte order), and a [poll] that returns a negative value reads
    the [errno] it sets; [getaddrinfo] answers with the candidates of the
    script when its return value is 0. The clock counts milliseconds. *)

Record Script : Type := mkScript {
  answers : list Z;
  candidates : list addrinfo;
  script_errno : Z
}.

Definition pop (k : Script) : Z * Script :=
  match answers k with
  | [] => (0, k)
  | a :: rest => (a, mkScript rest (candidates k) (script_errno k))
  end.

Definition script_getaddrinfo (port : Z) (hints : addrinfo) (k : Script)
  : (Z * list addrinfo) * Script :=
  let '(res, k') := pop k in
  ((res, if res =? 0 then candidates k' else []), k').

Definition script_getsockname (fd : Z) (k : Script) : (Z * Z) * Script :=
  let '(r, k1) := pop k in
  let '(p, k2) := pop k1 in
  ((r, p), k2).

Definition script_poll (fd events timeout : Z) (k : Script) : Z * Script :=
  let '(r, k1) := pop k in
  if r <? 0 then
    let '(e, k2) := pop k1 in
    (r, mkScript (answers k2) (candidates k2) e)
  else (r, k1).

#[export] Instance Script_OS : OS Script := {
  os_getaddrinfo := script_getaddrinfo;
  os_freeaddrinfo := fun k => k;
  os_socket := fun _ _ _ => pop;
  os_bind := fun _ _ _ => pop;
  os_getsockname := script_getsockname;
  os_listen := fun _ _ => pop;
  os_close := fun _ => pop;
  os_accept := fun _ => pop;
  os_poll := script_poll;
  os_errno := script_errno;
  os_now := pop;
  durationMillis := fun d => d;
  os_setReadTimeout := fun _ k => k;
  os_setWriteTimeout := fun _ k => k;
  os_readWithAbortCheck := fun _ _ _ _ _ => pop;
  os_writeWithAbortCheck := fun _ _ _ _ _ => pop
}.

(** A wildcard IPv4 stream candidate, as [getaddrinfo] would return it. *)
Definition candidate4 : addrinfo := mkAddrinfo AI_PASSIVE AF_INET SOCK_STREAM 6 16 1000.
(** A wildcard IPv6 stream candidate. *)
Definition candidate6 : addrinfo := mkAddrinfo AI_PASSIVE AF_INET6 SOCK_STREAM 6 28 2000.

Definition script (l : list Z) : Script := mkScript l [candidate4; candidate6] 0.

Definition default_options : WdtOptions := mkOptions false false.

(** An endpoint that listens on descriptor 3 at port 22356 and holds the
    accepted connection 4. *)
Definition connected_socket : ServerSocket :=
  mkServerSocket 22356 1 3 4 candidate4 0.

(** A second endpoint, listening on descriptor 5 at port 22357 with the
    accepted connection 6. *)
Definition other_socket : ServerSocket :=
  mkServerSocket 22357 8 5 6 candidate6 0.

(** ** The class invariant on descriptors *)

(** A descriptor member is either -1 or a descriptor: the constructor stores
    -1, and the methods store -1 or what [socket] and [accept] return. *)
Definition descriptors_valid (s : ServerSocket) : Prop :=
  -1 <= listeningFd_ s /\ -1 <= fd_ s.

(** The descriptors an object owns. *)
Definition owned_fds (s : ServerSocket) : list Z :=
  filter (fun fd => 0 <=? fd) [fd_ s; listeningFd_ s].

(** ** Further observations on traces *)

(** The descriptors the [socket] calls of a trace returned, in order; a
    return value of -1 is the failure the code tests for. *)
Fixpoint opened_fds (evs : list Event) : list Z :=
  match evs with
  | [] => []
  | EvSocket _ _ _ r :: rest =>
    if r =? -1 then opened_fds rest else r :: opened_fds rest
  | _ :: rest => opened_fds rest
  end.

(** The return values of the [bind] calls of a trace, in order. *)
Fixpoint bind_results (evs : list Event) : list Z :=
  match evs with
  | [] => []
  | EvBind _ _ _ r :: rest => r :: bind_results rest
  | _ :: rest => bind_results rest
  end.

(** The events [listen] can produce. *)
Definition is_listen_event (e : Event) : bool :=
  match e with
  | EvGetaddrinfo _ _ _ _ | EvFreeaddrinfo | EvListen _ _ _ => true
  | _ => is_bind_phase_event e
  end.

(** The events of the bounded wait: readings of the clock and [poll]. *)
Definition is_wait_event (e : Event) : bool :=
  match e with
  | EvNow _ | EvPoll _ _ _ _ _ => true
  | _ => false
  end.

(** The descriptor [listen] still holds for the sockets it created: none
    when the member is -1. *)
Definition kept_fd (s : ServerSocket) : list Z :=
  if listeningFd_ s =? -1 then [] else [listeningFd_ s].

(** The scripted operating system with [socket] and [accept] held to their
    POSIX range: an answer below -1 is read as -1. *)
Definition posix_pop (k : Script) : Z * Script :=
  let '(r, k') := pop k in (Z.max (-1) r, k').

Definition Posix_OS : OS Script := {|
  os_getaddrinfo := script_getaddrinfo;
  os_freeaddrinfo := fun k => k;
  os_socket := fun _ _ _ => posix_pop;
  os_bind := fun _ _ _ => pop;
  os_getsockname := script_getsockname;
  os_listen := fun _ _ => pop;
  os_close := fun _ => pop;
  os_accept := fun _ => posix_pop;
  os_poll := script_poll;
  os_errno := script_errno;
  os_now := pop;
  durationMillis := fun d => d;
  os_setReadTimeout := fun _ k => k;
  os_setWriteTimeout := fun _ k => k;
  os_readWithAbortCheck := fun _ _ _ _ _ => pop;
  os_writeWithAbortCheck := fun _ _ _ _ _ => pop
|}.

(** ** Proof tools *)

Lemma ErrorCode_eqb_eq (a b : ErrorCode) : ErrorCode_eqb a b = true <-> a = b.
Proof. destruct a, b; simpl; split; congruence. Qed.

Lemma closed_fds_app (l1 l2 : list Event) :
  closed_fds (l1 ++ l2) = closed_fds l1 ++ closed_fds l2.
Proof.
  induction l1 as [|e l1 IH]; simpl; [reflexivity|].
  destruct e; simpl; rewrite ?IH; reflexivity.
Qed.

Lemma syscalls_app (l1 l2 : list Event) :
  syscalls (l1 ++ l2) = syscalls l1 ++ syscalls l2.
Proof. unfold syscalls. apply filter_app. Qed.

Lemma ntohs_range (x : Z) : 0 <= ntohs x < 65536.
Proof.
  unfold ntohs.
  assert (Ha : 0 <= Z.land x 255 < 256).
  { change 255 with (Z.ones 8). rewrite Z.land_ones by lia.
    apply Z.mod_pos_bound. lia. }
  assert (Hb : 0 <= Z.land (Z.shiftr x 8) 255 < 256).
  { change 255 with (Z.ones 8). rewrite Z.land_ones by lia.
    apply Z.mod_pos_bound. lia. }
  assert (Hc : Z.shiftl (Z.land x 255) 8 = Z.land x 255 * 2 ^ 8).
  { apply Z.shiftl_mul_pow2. lia. }
  assert (Hnn : 0 <= Z.lor (Z.shiftl (Z.land x 255) 8)
                           (Z.land (Z.shiftr x 8) 255)).
  { apply Z.lor_nonneg. split; [rewrite Hc|]; lia. }
  split; [exact Hnn|].
  apply Z.log2_lt_cancel. change (Z.log2 65536) with 16.
  destruct (Z.eq_dec (Z.lor (Z.shiftl (Z.land x 255) 8)
                            (Z.land (Z.shiftr x 8) 255)) 0) as [E|E].
  - rewrite E. simpl. lia.
  - rewrite Z.log2_lor by (rewrite ?Hc; lia).
    apply Z.max_lub_lt.
    + destruct (Z.eq_dec (Z.land x 255) 0) as [E0|E0].
      * rewrite E0. simpl. lia.
      * apply Z.log2_lt_pow2; [rewrite Hc; lia|]. rewrite Hc. lia.
    + destruct (Z.eq_dec (Z.land (Z.shiftr x 8) 255) 0) as [E0|E0].
      * rewrite E0. simpl. lia.
      * apply Z.log2_lt_pow2; lia.
Qed.

Lemma to_int_small (z : Z) : - 2 ^ 31 <= z < 2 ^ 31 -> to_int z = z.
Proof.
  intros Hz. unfold to_int.
  rewrite Z.mod_small by lia. lia.
Qed.

(** Running the monad: unfold the combinators and name the answer of each
    call of the operating system. *)
Ltac unfold_eff :=
  unfold bind, ret, log, sys_getaddrinfo, sys_freeaddrinfo, sys_socket,
    sys_bind, sys_getsockname, sys_listen, sys_close, sys_accept, sys_poll,
    clock_now, setReadTimeout, setWriteTimeout, readWithAbortCheck,
    writeWithAbortCheck in *.

Ltac name_call :=
  match goal with
  | |- context [os_close ?fd ?k] =>
    let r := fresh "r" in let k' := fresh "k" in let E := fresh "Eclose" in
    destruct (os_close fd k) as [r k'] eqn:E
  | |- context [os_socket ?a ?b ?c ?k] =>
    let r := fresh "r" in let k' := fresh "k" in let E := fresh "Esocket" in
    destruct (os_socket a b c k) as [r k'] eqn:E
  | |- context [os_bind ?a ?b ?c ?k] =>
    let r := fresh "r" in let k' := fresh "k" in let E := fresh "Ebind" in
    destruct (os_bind a b c k) as [r k'] eqn:E
  | |- context [os_getsockname ?a ?k] =>
    let r := fresh "r" in let p := fresh "p" in
    let k' := fresh "k" in let E := fresh "Egetsockname" in
    destruct (os_getsockname a k) as [[r p] k'] eqn:E
  | |- context [os_getaddrinfo ?a ?b ?k] =>
    let r := fresh "res" in let l := fresh "infoList" in
    let k' := fresh "k" in let E := fresh "Egetaddrinfo" in
    destruct (os_getaddrinfo a b k) as [[r l] k'] eqn:E
  | |- context [os_listen ?a ?b ?k] =>
    let r := fresh "r" in let k' := fresh "k" in let E := fresh "Elisten" in
    destruct (os_listen a b k) as [r k'] eqn:E
  | |- context [os_accept ?a ?k] =>
    let r := fresh "r" in let k' := fresh "k" in let E := fresh "Eaccept" in
    destruct (os_accept a k) as [r k'] eqn:E
  | |- context [os_poll ?a ?b ?c ?k] =>
    let r := fresh "r" in let k' := fresh "k" in let E := fresh "Epoll" in
    destruct (os_poll a b c k) as [r k'] eqn:E
  | |- context [os_now ?k] =>
    let r := fresh "now" in let k' := fresh "k" in let E := fresh "Enow" in
    destruct (os_now k) as [r k'] eqn:E
  | |- context [os_readWithAbortCheck ?a ?b ?c ?d ?e ?k] =>
    let r := fresh "r" in let k' := fresh "k" in let E := fresh "Eread" in
    destruct (os_readWithAbortCheck a b c d e k) as [r k'] eqn:E
  | |- context [os_writeWithAbortCheck ?a ?b ?c ?d ?e ?k] =>
    let r := fresh "r" in let k' := fresh "k" in let E := fresh "Ewrite" in
    destruct (os_writeWithAbortCheck a b c d e k) as [r k'] eqn:E
  end.

Ltac case_test :=
  match goal with
  | |- context [if ?a <=? ?b then _ else _] =>
    let E := fresh "Ele" in
    destruct (Z.leb_spec a b) as [E|E]
  | |- context [if ?a <? ?b then _ else _] =>
    let E := fresh "Elt" in
    destruct (Z.ltb_spec a b) as [E|E]
  | |- context [if negb (?a =? ?b) then _ else _] =>
    let E := fresh "Eeq" in
    destruct (Z.eqb_spec a b) as [E|E]; simpl negb
  | |- context [if ?a =? ?b then _ else _] =>
    let E := fresh "Eeq" in
    destruct (Z.eqb_spec a b) as [E|E]
  end.

Ltac step_eff := first [name_call | case_test]; simpl.

(** ** Teardown and ownership *)

Section Lifecycle.
Context {K : Type} `{OS K}.

Lemma move_assign_spec (this that : ServerSocket) :
  move_assign this that =
  (mkServerSocket (port_ that) (backlog_ this) (listeningFd_ that)
                  (fd_ that) (sa_ that) (abortChecker_ that),
   mkServerSocket (port_ this) (backlog_ that) (listeningFd_ this)
                  (fd_ this) (sa_ this) (abortChecker_ this)).
Proof. reflexivity. Qed.

Lemma owned_fds_valid (s : ServerSocket) (fd : Z) :
  In fd (owned_fds s) <->
  0 <= fd /\ (fd = fd_ s \/ fd = listeningFd_ s).
Proof.
  unfold owned_fds. rewrite filter_In. simpl.
  rewrite Z.leb_le. intuition.
Qed.

(** What [closeAll] closes and what it leaves, whatever [close] answers. *)
Lemma closeAll_spec (this : ServerSocket) (k : K) :
  let '(this', k', evs) := closeAll this k in
  closed_fds evs = owned_fds this /\
  fd_ this' = (if 0 <=? fd_ this then -1 else fd_ this) /\
  listeningFd_ this' =
    (if 0 <=? listeningFd_ this then -1 else listeningFd_ this) /\
  port_ this' = port_ this /\ backlog_ this' = backlog_ this /\
  sa_ this' = sa_ this /\ abortChecker_ this' = abortChecker_ this.
Proof.
  destruct this as [p b lfd fd sa chk].
  unfold closeAll, owned_fds. unfold_eff. simpl.
  repeat step_eff; try lia; repeat split; reflexivity.
Qed.

(** With no descriptor to close, [closeAll] only writes its verbose line. *)
Lemma closeAll_absent (this : ServerSocket) (k : K) :
  fd_ this < 0 -> listeningFd_ this < 0 ->
  closeAll this k =
  (this, k,
   [EvLog VERBOSE "Destroying server socket (port, listen fd, fd)"
          [port_ this; listeningFd_ this; fd_ this]]).
Proof.
  intros Hfd Hlfd. unfold closeAll. unfold_eff.
  destruct (Z.leb_spec 0 (fd_ this)) as [E|_]; [lia|].
  destruct (Z.leb_spec 0 (listeningFd_ this)) as [E|_]; [lia|].
  reflexivity.
Qed.

(** A [close] that fails during [closeAll] leaves an error line. *)
Lemma closeAll_logs_failures (this : ServerSocket) (k : K) (fd r : Z) :
  In (EvClose fd r) (events_of (closeAll this k)) -> r <> 0 ->
  exists msg, In (EvLog ERROR msg [fd; port_ this])
                 (events_of (closeAll this k)).
Proof.
  destruct this as [p b lfd cfd sa chk].
  unfold closeAll, events_of. unfold_eff. simpl.
  repeat step_eff; try lia; intros Hin Hr;
    repeat (destruct Hin as [Hin|Hin]; try discriminate Hin;
            try (injection Hin as -> ->; try contradiction));
    try contradiction;
    eexists; simpl; eauto 8.
Qed.

(** C1, as the code has it. Move assignment swaps port, address,
    both descriptors and the abort checker of the two objects and leaves
    each backlog where it was: the source holds afterwards what the target
    held before. Destroying the source then closes exactly the descriptors
    the target owned before the move, and none the target owns now, when
    the two objects owned different descriptors. Move construction leaves
    its source with both descriptors and the port at -1, and destroying
    that source closes nothing. *)
Theorem move_assign_swaps_ownership (this that : ServerSocket) (k : K) :
  (forall fd, In fd (owned_fds this) -> ~ In fd (owned_fds that)) ->
  let '(this', that') := move_assign this that in
  (port_ that' = port_ this /\ listeningFd_ that' = listeningFd_ this /\
   fd_ that' = fd_ this /\ sa_ that' = sa_ this /\
   abortChecker_ that' = abortChecker_ this /\
   backlog_ that' = backlog_ that) /\
  (port_ this' = port_ that /\ listeningFd_ this' = listeningFd_ that /\
   fd_ this' = fd_ that /\ sa_ this' = sa_ that /\
   abortChecker_ this' = abortChecker_ that /\
   backlog_ this' = backlog_ this) /\
  (let evs := events_of (destroy that' k) in
   closed_fds evs = owned_fds this /\
   forall fd, In fd (closed_fds evs) -> ~ In fd (owned_fds this')) /\
  (let '(new, moved) := move_construct that in
   new = that /\
   listeningFd_ moved = -1 /\ fd_ moved = -1 /\ port_ moved = -1 /\
   closed_fds (events_of (destroy moved k)) = []).
Proof.
  intros Hdisj. rewrite move_assign_spec.
  split; [simpl; tauto|]. split; [simpl; tauto|]. split.
  - cbv zeta. unfold destroy, events_of.
    pose proof (closeAll_spec
                  (mkServerSocket (port_ this) (backlog_ that)
                     (listeningFd_ this) (fd_ this) (sa_ this)
                     (abortChecker_ this)) k) as Hspec.
    destruct (closeAll _ k) as [[s' k'] evs]. simpl snd.
    destruct Hspec as (Hclosed & _).
    rewrite Hclosed. split; [reflexivity|].
    intros fd Hin. apply Hdisj. exact Hin.
  - unfold move_construct. cbv beta iota zeta.
    split; [destruct that; reflexivity|].
    split; [reflexivity|]. split; [reflexivity|].
    split; [reflexivity|].
    unfold destroy. rewrite closeAll_absent by (simpl; lia). reflexivity.
Qed.

(** C8: [closeCurrentConnection] leaves the listening descriptor, the port
    and every other member but [fd_] as they were. With a connection
    ([fd_ >= 0]) it makes one system call, [close(fd_)], returns what that
    call returned and sets [fd_] to -1; without one it makes no call,
    changes nothing and returns 0. *)
Theorem closeCurrentConnection_frame (this : ServerSocket) (k : K) :
  let '(r, this', k', evs) := closeCurrentConnection this k in
  (listeningFd_ this' = listeningFd_ this /\ port_ this' = port_ this /\
   backlog_ this' = backlog_ this /\ sa_ this' = sa_ this /\
   abortChecker_ this' = abortChecker_ this) /\
  (0 <= fd_ this ->
   os_close (fd_ this) k = (r, k') /\ evs = [EvClose (fd_ this) r] /\
   fd_ this' = -1) /\
  (fd_ this < 0 -> r = 0 /\ this' = this /\ k' = k /\ evs = []).
Proof.
  unfold closeCurrentConnection. unfold_eff.
  destruct (Z.leb_spec 0 (fd_ this)) as [E|E].
  - destruct (os_close (fd_ this) k) as [r k'] eqn:Eclose. simpl.
    repeat split; try reflexivity; lia.
  - simpl. repeat split; try reflexivity; lia.
Qed.

(** C9: from every state [closeAll] closes the descriptors the object
    owns and leaves both members without a descriptor, whatever the [close]
    calls return: at -1 in every state the class can be in (members at -1
    or a descriptor). A [close] that fails is reported in an error line and
    changes nothing else. A second [closeAll] right after makes no system
    call, writes no error line and leaves the object and the outside world
    as the first call left them. *)
Theorem closeAll_idempotent (this : ServerSocket) (k : K) :
  let '(this1, k1, evs1) := closeAll this k in
  let '(this2, k2, evs2) := closeAll this1 k1 in
  (fd_ this1 < 0 /\ listeningFd_ this1 < 0) /\
  (descriptors_valid this -> fd_ this1 = -1 /\ listeningFd_ this1 = -1) /\
  closed_fds evs1 = owned_fds this /\
  (forall fd r, In (EvClose fd r) evs1 -> r <> 0 ->
                exists msg, In (EvLog ERROR msg [fd; port_ this]) evs1) /\
  (this2 = this1 /\ k2 = k1) /\
  syscalls evs2 = [] /\ closed_fds evs2 = [] /\
  filter is_error_log evs2 = [].
Proof.
  pose proof (closeAll_spec this k) as Hspec.
  pose proof (closeAll_logs_failures this k) as Hlogs.
  destruct (closeAll this k) as [[this1 k1] evs1].
  destruct Hspec as (Hclosed & Hfd1 & Hlfd1 & _).
  assert (Efd : fd_ this1 < 0).
  { rewrite Hfd1. destruct (Z.leb_spec 0 (fd_ this)); lia. }
  assert (Elfd : listeningFd_ this1 < 0).
  { rewrite Hlfd1. destruct (Z.leb_spec 0 (listeningFd_ this)); lia. }
  rewrite closeAll_absent by lia.
  split; [auto|]. split.
  - intros [Hlfd Hfd]. rewrite Hfd1, Hlfd1.
    destruct (Z.leb_spec 0 (fd_ this));
      destruct (Z.leb_spec 0 (listeningFd_ this)); lia.
  - repeat split; auto.
Qed.

(** C10: [read] and [write] make exactly one call, to the byte-transfer
    collaborator, with the current [fd_], the buffer, the length, the
    stored abort checker and the flag as they are; they return what it
    returns and leave every member of the object as it was. No test on
    [fd_] comes first: the equations hold for every state. *)
Theorem read_write_relay (this : ServerSocket) (buf : Ptr) (nbyte : Z)
        (tryFull : bool) (k : K) :
  read this buf nbyte tryFull k =
  (let '(r, k') := os_readWithAbortCheck (fd_ this) buf nbyte
                                         (abortChecker_ this) tryFull k in
   ((r, this), k',
    [EvRead (fd_ this) buf nbyte (abortChecker_ this) tryFull r])) /\
  write this buf nbyte tryFull k =
  (let '(r, k') := os_writeWithAbortCheck (fd_ this) buf nbyte
                                          (abortChecker_ this) tryFull k in
   ((r, this), k',
    [EvWrite (fd_ this) buf nbyte (abortChecker_ this) tryFull r])).
Proof.
  unfold read, write. unfold_eff.
  split; repeat name_call; reflexivity.
Qed.

End Lifecycle.

(** C1 as stated fails: after [other_socket = move(connected_socket)] the
    source holds the descriptors 5 and 6 and the port 22357 of the target,
    not -1. *)
Lemma move_assign_source_not_reset :
  let '(_, that') := move_assign other_socket connected_socket in
  ~ (listeningFd_ that' = -1 /\ fd_ that' = -1 /\ port_ that' = -1).
Proof. simpl. intros (Hl & _). discriminate Hl. Qed.

(** The theorems above at concrete endpoints, on scripted answers. *)

Lemma move_assign_swaps_ownership_witness :
  (forall fd, In fd (owned_fds other_socket) ->
              ~ In fd (owned_fds connected_socket)) /\
  closed_fds (events_of (destroy (snd (move_assign other_socket
                                                   connected_socket))
                                 (script [0; 0]))) = [6; 5].
Proof.
  assert (Hd : forall fd, In fd (owned_fds other_socket) ->
                          ~ In fd (owned_fds connected_socket)).
  { simpl. intros fd [<-|[<-|[]]] [E|[E|[]]]; discriminate E. }
  split; [exact Hd|].
  pose proof (move_assign_swaps_ownership other_socket connected_socket
                                          (script [0; 0]) Hd) as P.
  rewrite move_assign_spec in P. simpl snd.
  destruct P as (_ & _ & (P & _) & _). exact P.
Defined.

Lemma closeCurrentConnection_frame_witness :
  let '(r, this', k', evs) :=
    closeCurrentConnection connected_socket (script [0]) in
  r = 0 /\ fd_ this' = -1 /\ listeningFd_ this' = 3 /\ port_ this' = 22356 /\
  evs = [EvClose 4 0].
Proof.
  pose proof (closeCurrentConnection_frame connected_socket (script [0])) as P.
  simpl in P. destruct P as ((Hl & Hp & _) & P & _).
  destruct P as (_ & He & Hf); [lia|].
  simpl. repeat split.
Defined.

Lemma closeAll_idempotent_witness :
  descriptors_valid connected_socket /\
  closed_fds (events_of (closeAll connected_socket (script [-1; 0]))) = [4; 3].
Proof.
  assert (Hv : descriptors_valid connected_socket).
  { unfold descriptors_valid. simpl. lia. }
  split; [exact Hv|].
  pose proof (closeAll_idempotent connected_socket (script [-1; 0])) as P.
  simpl in P. destruct P as (_ & Hm & P & _).
  destruct (Hm Hv) as (_ & _). exact P.
Defined.

(** ** Bind and listen *)

Section Listen.
Context {K : Type} `{OS K}.

(** Already listening on a positive descriptor: nothing is done. *)
Lemma listen_bound (this : ServerSocket) (k : K) :
  0 < listeningFd_ this -> listen this k = ((OK, this), k, []).
Proof.
  intros Hpos. unfold listen.
  destruct (Z.ltb_spec 0 (listeningFd_ this)); [reflexivity|lia].
Qed.

(** Without a positive listening descriptor, [listen] starts by resolving
    the address with the stored port and hints. *)
Lemma listen_unbound_resolves (this : ServerSocket) (k : K) :
  listeningFd_ this <= 0 ->
  hd_error (events_of (listen this k)) =
  Some (EvGetaddrinfo (port_ this) (sa_ this)
          (fst (fst (os_getaddrinfo (port_ this) (sa_ this) k)))
          (snd (fst (os_getaddrinfo (port_ this) (sa_ this) k)))).
Proof.
  intros Hle. unfold listen.
  destruct (Z.ltb_spec 0 (listeningFd_ this)) as [Hlt|_]; [lia|].
  unfold bind at 1. unfold sys_getaddrinfo.
  destruct (os_getaddrinfo (port_ this) (sa_ this) k) as [[res l] k1].
  cbv beta iota. simpl fst. simpl snd.
  match goal with
  | |- hd_error (events_of (match ?X with _ => _ end)) = _ =>
    destruct X as [[b k2] e2]
  end.
  reflexivity.
Qed.

(** The candidate loop: its events, the members it leaves alone, and its
    outcome when no [bind] succeeds. *)
Lemma bindLoop_inv (infoList : list addrinfo) :
  forall (this : ServerSocket) (k : K),
    let '(this', k', evs) := bindLoop infoList this k in
    forallb is_bind_phase_event evs = true /\
    (backlog_ this' = backlog_ this /\ fd_ this' = fd_ this /\
     abortChecker_ this' = abortChecker_ this) /\
    ((forall fd a len, ~ In (EvBind fd a len 0) evs) ->
     socket_calls evs = map socket_args infoList /\
     port_ this' = port_ this /\ sa_ this' = sa_ this /\
     listeningFd_ this' = match infoList with
                          | [] => listeningFd_ this
                          | _ :: _ => -1
                          end).
Proof.
  induction infoList as [|info rest IH]; intros this k.
  - simpl. unfold ret. repeat split; reflexivity.
  - destruct this as [p b lfd cfd sa chk].
    simpl bindLoop. unfold_eff. unfold bindSucceeded. unfold_eff. simpl.
    repeat step_eff;
      repeat match goal with
      | |- context [bindLoop rest ?s ?k0] =>
        let IH' := fresh "IH'" in
        pose proof (IH s k0) as IH';
        destruct (bindLoop rest s k0) as [[this' k'] evs];
        destruct IH' as (Hev & (Hb & Hf & Hc) & Hfail); simpl in *
      end;
      (split; [try reflexivity; auto|]);
      (split; [auto|]);
      intros Hno.
    all: subst.
    all: try solve [
      exfalso; eapply Hno;
      repeat first [left; reflexivity | right] ].
    all: destruct Hfail as (Hs & Hp & Hsa & Hl);
      [ intros fd a len Hin; apply (Hno fd a len); tauto
      | unfold socket_args at 1; rewrite Hs;
        repeat split; auto; destruct rest; auto ].
Qed.

(** Where the loop leaves the listening descriptor: untouched, at -1, or
    on a socket whose [bind] succeeded. *)
Lemma bindLoop_descriptor (infoList : list addrinfo) :
  forall (this : ServerSocket) (k : K),
    let '(this', k', evs) := bindLoop infoList this k in
    listeningFd_ this' = listeningFd_ this \/
    listeningFd_ this' = -1 \/
    exists a len, In (EvBind (listeningFd_ this') a len 0) evs.
Proof.
  induction infoList as [|info rest IH]; intros this k.
  - simpl. unfold ret. left. reflexivity.
  - destruct this as [p b lfd cfd sa chk].
    simpl bindLoop. unfold_eff. unfold bindSucceeded. unfold_eff. simpl.
    repeat step_eff;
      repeat match goal with
      | |- context [bindLoop rest ?s ?k0] =>
        let IH' := fresh "IH'" in
        pose proof (IH s k0) as IH';
        destruct (bindLoop rest s k0) as [[this' k'] evs];
        simpl in IH'
      end;
      subst; simpl.
    all: try (destruct IH' as [E|[E|(a & len & Hin)]];
              [ rewrite E; auto
              | auto
              | right; right; exists a, len; rewrite ?in_app_iff;
                simpl; auto 10 ]).
    all: try (right; right; do 2 eexists; simpl; auto 10; fail).
    all: right; right; do 2 eexists;
      repeat first [left; reflexivity | right].
Qed.

Lemma socket_calls_app (l1 l2 : list Event) :
  socket_calls (l1 ++ l2) = socket_calls l1 ++ socket_calls l2.
Proof.
  induction l1 as [|e l1 IH]; simpl; [reflexivity|].
  destruct e; simpl; rewrite ?IH; reflexivity.
Qed.

Lemma bind_phase_no_listen (evs : list Event) (fd backlog r : Z) :
  forallb is_bind_phase_event evs = true ->
  ~ In (EvListen fd backlog r) evs.
Proof.
  intros Hall Hin. rewrite forallb_forall in Hall.
  apply Hall in Hin. discriminate Hin.
Qed.

(** [listen] returns [OK] only with a positive listening descriptor. *)
Lemma listen_ok_positive (this this' : ServerSocket) (k k' : K)
      (evs : list Event) :
  listen this k = ((OK, this'), k', evs) -> 0 < listeningFd_ this'.
Proof.
  unfold listen.
  destruct (Z.ltb_spec 0 (listeningFd_ this)) as [Hlt|Hle].
  { unfold ret. intros E. injection E as <- _ _. exact Hlt. }
  unfold_eff.
  destruct (os_getaddrinfo (port_ this) (sa_ this) k)
    as [[res infoList] k1].
  simpl.
  destruct (Z.eqb_spec res 0) as [E0|E0]; simpl; [|discriminate].
  destruct (bindLoop infoList this k1) as [[this1 k2] evs1].
  destruct (Z.leb_spec (listeningFd_ this1) 0) as [Hl1|Hl1]; simpl;
    [discriminate|].
  name_call. simpl.
  destruct (Z.eqb_spec r 0) as [Er|Er]; simpl.
  - intros E. injection E as <- _ _. exact Hl1.
  - name_call. simpl. discriminate.
Qed.

(** C4: when [listen] has to bind (no positive listening descriptor yet),
    a [getaddrinfo] that fails makes it return [CONN_ERROR], the
    non-retryable code, with nothing else attempted and the object
    untouched; a [getaddrinfo] that succeeds followed by no successful
    [bind] at all makes it return [CONN_ERROR_RETRYABLE], after a [socket]
    call for every candidate in resolver order, with no listening
    descriptor left. *)
Theorem listen_bind_failures (this : ServerSocket) (k k1 : K) (res : Z)
        (infoList : list addrinfo) :
  listeningFd_ this <= 0 ->
  os_getaddrinfo (port_ this) (sa_ this) k = ((res, infoList), k1) ->
  let '(code, this', k', evs) := listen this k in
  (res <> 0 ->
   code = CONN_ERROR /\ this' = this /\ k' = k1 /\
   syscalls evs = [EvGetaddrinfo (port_ this) (sa_ this) res infoList]) /\
  (res = 0 ->
   (forall fd a len, ~ In (EvBind fd a len 0) evs) ->
   code = CONN_ERROR_RETRYABLE /\
   socket_calls evs = map socket_args infoList /\
   listeningFd_ this' <= 0 /\ port_ this' = port_ this).
Proof.
  intros Hle Hgai. unfold listen.
  destruct (Z.ltb_spec 0 (listeningFd_ this)) as [Hlt|_]; [lia|].
  unfold_eff. rewrite Hgai. simpl.
  destruct (Z.eqb_spec res 0) as [E0|E0]; simpl.
  - subst res.
    pose proof (bindLoop_inv infoList this k1) as Hinv.
    destruct (bindLoop infoList this k1) as [[this1 k2] evs1].
    destruct Hinv as (_ & _ & Hfail).
    destruct (Z.leb_spec (listeningFd_ this1) 0) as [Hl1|Hl1]; simpl.
    + split; [intros Hne; contradiction|]. intros _ Hno.
      destruct Hfail as (Hs & Hp & _ & Hl).
      { intros fd a len Hin. apply (Hno fd a len).
        right. rewrite in_app_iff. left. exact Hin. }
      repeat split; auto.
      rewrite socket_calls_app, Hs. simpl. apply app_nil_r.
    + name_call. simpl.
      destruct (Z.eqb_spec r 0) as [Er|Er]; simpl;
        try name_call;
        simpl; (split; [intros Hne; contradiction|]);
        intros _ Hno; exfalso;
        (destruct Hfail as (_ & _ & _ & Hl);
         [ intros fd a len Hin; apply (Hno fd a len);
           right; rewrite in_app_iff; left; exact Hin
         | destruct infoList; lia ]).
  - simpl.
    split; [intros _; repeat split; reflexivity|].
    intros E; contradiction.
Qed.

(** C5: if the [listen] system call of a [ServerSocket::listen] fails, the
    method returns [CONN_ERROR_RETRYABLE] with the listening descriptor
    member at -1. The failed call was made on a positive descriptor that a
    [bind] of the same method call had bound, with the stored backlog, and
    it is followed by the error line and the [close] of that descriptor,
    which end the method. A [listen] called again on the resulting state
    starts with [getaddrinfo]. *)
Theorem listen_syscall_failure_resets (this : ServerSocket) (k : K)
        (fd backlog r : Z) :
  In (EvListen fd backlog r) (events_of (listen this k)) ->
  r <> 0 ->
  let '(code, this', k', evs) := listen this k in
  code = CONN_ERROR_RETRYABLE /\
  listeningFd_ this' = -1 /\
  (0 < fd /\ backlog = backlog_ this) /\
  (exists pre cr,
      evs = pre ++ [EvListen fd backlog r;
                    EvLog ERROR "listen error for port " [port_ this'];
                    EvClose fd cr] /\
      exists a len, In (EvBind fd a len 0) pre) /\
  (exists res l,
      hd_error (events_of (listen this' k')) =
      Some (EvGetaddrinfo (port_ this') (sa_ this') res l)).
Proof.
  unfold listen at 1 2.
  destruct (Z.ltb_spec 0 (listeningFd_ this)) as [Hlt|Hle].
  { simpl. intros []. }
  unfold_eff.
  destruct (os_getaddrinfo (port_ this) (sa_ this) k)
    as [[res infoList] k1] eqn:Hgai.
  simpl.
  destruct (Z.eqb_spec res 0) as [E0|E0]; simpl.
  2:{ simpl. intros [Hin|[Hin|[]]]; discriminate Hin. }
  subst res.
  pose proof (bindLoop_inv infoList this k1) as Hinv.
  pose proof (bindLoop_descriptor infoList this k1) as Hdesc.
  destruct (bindLoop infoList this k1) as [[this1 k2] evs1].
  destruct Hinv as (Hev & (Hb & _) & _).
  destruct (Z.leb_spec (listeningFd_ this1) 0) as [Hl1|Hl1].
  { simpl. intros [Hin|Hin]; [discriminate Hin|].
    rewrite in_app_iff in Hin. destruct Hin as [Hin|Hin].
    - exfalso. eapply bind_phase_no_listen; eauto.
    - simpl in Hin. destruct Hin as [Hin|[Hin|[]]]; discriminate Hin. }
  destruct (os_listen (listeningFd_ this1) (backlog_ this1)
                      (os_freeaddrinfo k2)) as [r1 k3] eqn:Elisten.
  assert (Hfind : forall tl,
             (forall e, In e tl -> forall a b c, e <> EvListen a b c) ->
             In (EvListen fd backlog r)
                (EvGetaddrinfo (port_ this) (sa_ this) 0 infoList
                 :: evs1 ++ EvFreeaddrinfo
                 :: EvListen (listeningFd_ this1) (backlog_ this1) r1
                 :: tl) ->
             fd = listeningFd_ this1 /\ backlog = backlog_ this1 /\ r = r1).
  { intros tl Htl [Hin|Hin]; [discriminate Hin|].
    rewrite in_app_iff in Hin. destruct Hin as [Hin|Hin].
    - exfalso. eapply bind_phase_no_listen; eauto.
    - simpl in Hin. destruct Hin as [Hin|[Hin|Hin]].
      + discriminate Hin.
      + injection Hin as -> -> ->. auto.
      + exfalso. exact (Htl _ Hin _ _ _ eq_refl). }
  destruct (Z.eqb_spec r1 0) as [Er|Er]; simpl.
  { simpl. intros Hin Hr. apply (Hfind []) in Hin; [|intros e []].
    destruct Hin as (_ & _ & ->). contradiction. }
  destruct (os_close (listeningFd_ this1) k3) as [cr k4] eqn:Eclose.
  simpl. intros Hin Hr.
  apply (Hfind [EvLog ERROR "listen error for port " [port_ this1];
                EvClose (listeningFd_ this1) cr]) in Hin.
  2:{ intros e [<-|[<-|[]]] a b c; discriminate. }
  destruct Hin as (-> & -> & ->).
  split; [reflexivity|]. split; [reflexivity|].
  split; [split; [lia|exact Hb]|]. split.
  - exists (EvGetaddrinfo (port_ this) (sa_ this) 0 infoList
            :: evs1 ++ [EvFreeaddrinfo]), cr.
    split.
    + simpl. rewrite <- app_assoc. reflexivity.
    + destruct Hdesc as [E|[E|(a & len & Hin)]]; try lia.
      exists a, len. right. rewrite in_app_iff. left. exact Hin.
  - assert (Hun : listeningFd_ (set_listeningFd (-1) this1) <= 0)
      by (simpl; lia).
    do 2 eexists.
    exact (listen_unbound_resolves (set_listeningFd (-1) this1) k4 Hun).
Qed.

End Listen.

Lemma listen_bind_failures_witness :
  listeningFd_ (ServerSocket_new default_options 22356 1 0) <= 0 /\
  os_getaddrinfo 22356 (sa_ (ServerSocket_new default_options 22356 1 0))
                 (script [0; -1; 5; 1; 0]) =
  ((0, [candidate4; candidate6]), script [-1; 5; 1; 0]) /\
  fst (value_of (listen (ServerSocket_new default_options 22356 1 0)
                        (script [0; -1; 5; 1; 0]))) =
  CONN_ERROR_RETRYABLE.
Proof.
  assert (H1 : listeningFd_ (ServerSocket_new default_options 22356 1 0) <= 0)
    by (simpl; lia).
  split; [exact H1|]. split; [reflexivity|].
  pose proof (listen_bind_failures
                (ServerSocket_new default_options 22356 1 0)
                (script [0; -1; 5; 1; 0]) (script [-1; 5; 1; 0])
                0 [candidate4; candidate6] H1 eq_refl) as P.
  destruct (listen (ServerSocket_new default_options 22356 1 0)
                   (script [0; -1; 5; 1; 0])) as [[[code this'] k'] evs] eqn:E.
  destruct P as (_ & P).
  vm_compute in E. injection E as <- <- <- <-.
  destruct (P eq_refl) as (Hcode & _); [|exact Hcode].
  intros fd a len Hin. simpl in Hin.
  repeat (destruct Hin as [Hin|Hin]; try discriminate Hin).
  exact Hin.
Defined.

Lemma listen_syscall_failure_resets_witness :
  In (EvListen 3 1 (-1))
     (events_of (listen (ServerSocket_new default_options 22356 1 0)
                        (script [0; 3; 0; -1; 0]))) /\
  -1 <> 0 /\
  fst (value_of (listen (ServerSocket_new default_options 22356 1 0)
                        (script [0; 3; 0; -1; 0]))) =
  CONN_ERROR_RETRYABLE /\
  listeningFd_ (snd (value_of (listen
                                 (ServerSocket_new default_options 22356 1 0)
                                 (script [0; 3; 0; -1; 0])))) = -1.
Proof.
  assert (H1 : In (EvListen 3 1 (-1))
                  (events_of (listen (ServerSocket_new default_options 22356 1 0)
                                     (script [0; 3; 0; -1; 0])))).
  { vm_compute. auto 10. }
  assert (H2 : -1 <> 0) by lia.
  split; [exact H1|]. split; [exact H2|].
  pose proof (listen_syscall_failure_resets
                (ServerSocket_new default_options 22356 1 0)
                (script [0; 3; 0; -1; 0]) 3 1 (-1) H1 H2) as P.
  destruct (listen (ServerSocket_new default_options 22356 1 0)
                   (script [0; 3; 0; -1; 0])) as [[[code this'] k'] evs].
  destruct P as (Hcode & Hlfd & _).
  split; [exact Hcode|exact Hlfd].
Defined.

(** C2 on the code: descriptor 0. With descriptor 0 free in the process, the
    first [listen] of a new endpoint gets 0 from [socket] and binds it, yet
    returns [CONN_ERROR_RETRYABLE] and keeps 0 as listening descriptor. The
    endpoint is then bound in the sense [listeningFd_ >= 0], and the next
    [listen] resolves, creates a socket and binds again; descriptor 0 is
    closed by neither call. *)
Theorem listen_rebinds_descriptor_zero :
  let '(code1, this1, k1, evs1) :=
    listen (ServerSocket_new default_options 22356 1 0)
           (script [0; 0; 0; 0; 7; 0; 0]) in
  let '(code2, this2, k2, evs2) := listen this1 k1 in
  (code1 = CONN_ERROR_RETRYABLE /\ listeningFd_ this1 = 0 /\
   In (EvBind 0 (ai_addr candidate4) (ai_addrlen candidate4) 0) evs1) /\
  (code2 = OK /\ listeningFd_ this2 = 7 /\
   syscalls evs2 =
   [EvGetaddrinfo 22356 candidate4 0 [candidate4; candidate6];
    EvSocket AF_INET SOCK_STREAM 6 7;
    EvBind 7 (ai_addr candidate4) (ai_addrlen candidate4) 0;
    EvFreeaddrinfo;
    EvListen 7 1 0]) /\
  closed_fds (evs1 ++ evs2) = [].
Proof.
  vm_compute. repeat split; auto 10.
Qed.

(** C3 on the code: a failing [getsockname]. A new endpoint for port 0 whose
    only candidate is bound on descriptor 3 and whose [getsockname] then
    fails leaves the candidate loop with descriptor 3 still stored; [listen]
    goes on to the [listen] system call and returns [OK], and the port
    accessor still answers 0. *)
Theorem listen_ok_with_port_zero :
  let '(code, this', k', evs) :=
    listen (ServerSocket_new default_options 0 1 0)
           (mkScript [0; 3; 0; -1; 0; 0] [candidate4] 0) in
  code = OK /\ getPort this' = 0 /\ getListenFd this' = 3 /\
  syscalls evs =
  [EvGetaddrinfo 0 (sa_ (ServerSocket_new default_options 0 1 0)) 0
                 [candidate4];
   EvSocket AF_INET SOCK_STREAM 6 3;
   EvBind 3 (ai_addr candidate4) (ai_addrlen candidate4) 0;
   EvGetsockname 3 (-1) 0;
   EvFreeaddrinfo;
   EvListen 3 1 0].
Proof.
  vm_compute. repeat split.
Qed.

(** ** Accept *)

Section Accept.
Context {K : Type} `{OS K}.

Lemma interrupted_polls_app (l1 l2 : list Event) :
  interrupted_polls (l1 ++ l2) = interrupted_polls l1 ++ interrupted_polls l2.
Proof. unfold interrupted_polls. apply filter_app. Qed.

(** The four ways through one turn of the wait loop. *)
Lemma pollOnce_cases (t start : Z) (this : ServerSocket) (k : K) :
  let '(e, k', evs) := pollOnce t start this k in
  closed_fds evs = [] /\
  List.length (interrupted_polls evs) =
    match e with None => 1%nat | Some _ => 0%nat end /\
  exists now,
    (t <= elapsedMillis start now /\
     syscalls evs = [EvNow now] /\
     e = Some (LoopReturn CONN_ERROR)) \/
    (elapsedMillis start now < t /\
     exists r errno,
       syscalls evs =
       [EvNow now;
        EvPoll (listeningFd_ this) POLLIN
               (to_int (t - elapsedMillis start now))
               r errno] /\
       ((0 < r /\ e = Some LoopBreak) \/
        (r <= 0 /\ errno <> EINTR /\ e = Some (LoopReturn CONN_ERROR)) \/
        (r <= 0 /\ errno = EINTR /\ e = None))).
Proof.
  unfold pollOnce. unfold_eff.
  destruct (os_now k) as [now k1] eqn:Enow. simpl.
  destruct (Z.leb_spec t (elapsedMillis start now)) as [Hout|Hin]; simpl.
  { split; [reflexivity|]. split; [reflexivity|].
    exists now. left. auto. }
  destruct (os_poll (listeningFd_ this) POLLIN
                    (to_int (t - elapsedMillis start now)) k1)
    as [r k2] eqn:Epoll.
  simpl.
  destruct (Z.leb_spec r 0) as [Hr|Hr]; simpl.
  - destruct (Z.eqb_spec (os_errno k2) EINTR) as [He|He]; simpl.
    + split; [reflexivity|].
      split.
      { destruct (Z.leb_spec r 0); [|lia].
        rewrite He. reflexivity. }
      exists now. right. split; [exact Hin|].
      exists r, (os_errno k2). split; [reflexivity|]. auto.
    + assert (Hnot : (r <=? 0) && (os_errno k2 =? EINTR) = false).
      { apply andb_false_iff. right. apply Z.eqb_neq. exact He. }
      destruct (Z.eqb_spec r 0) as [Hz|Hz]; simpl; rewrite Hnot;
        (split; [reflexivity|]); (split; [reflexivity|]);
        exists now; right; (split; [exact Hin|]);
        exists r, (os_errno k2); (split; [reflexivity|]); auto.
  - assert (Hnot : (r <=? 0) && (os_errno k2 =? EINTR) = false).
    { apply andb_false_iff. left. apply Z.leb_gt. exact Hr. }
    rewrite Hnot.
    split; [reflexivity|]. split; [reflexivity|].
    exists now. right. split; [exact Hin|].
    exists r, (os_errno k2). split; [reflexivity|]. left. auto.
Qed.

(** The loop follows the discipline of [wait_trace]. *)
Lemma pollLoop_wait_trace (fuel : nat) (t start : Z) (this : ServerSocket) :
  forall k : K,
    let '(exit, k', evs) := pollLoop fuel t start this k in
    wait_trace (elapsedMillis start) t (listeningFd_ this)
               (syscalls evs) exit.
Proof.
  induction fuel as [|fuel IH]; intros k.
  - simpl. unfold ret. simpl. constructor.
  - simpl pollLoop. unfold bind.
    pose proof (pollOnce_cases t start this k) as Hc.
    destruct (pollOnce t start this k) as [[e k1] evs1].
    destruct Hc as (_ & _ & now & Hc).
    destruct e as [exit|].
    + unfold ret. rewrite app_nil_r.
      destruct Hc as [(Hout & -> & E)|(Hin & r & errno & -> & Hc)].
      * injection E as ->. constructor. exact Hout.
      * destruct Hc as [(Hr & E)|[(Hr & He & E)|(_ & _ & E)]];
          try discriminate E; injection E as ->;
          constructor; assumption.
    + specialize (IH k1).
      destruct (pollLoop fuel t start this k1) as [[exit k2] evs2].
      rewrite syscalls_app.
      destruct Hc as [(_ & _ & E)|(Hin & r & errno & -> & Hc)];
        [discriminate E|].
      destruct Hc as [(_ & E)|[(_ & _ & E)|(Hr & -> & _)]];
        try discriminate E.
      simpl. apply wait_interrupted; assumption.
Qed.

(** The loop is still running after [fuel] turns exactly when each of them
    ended in an interrupted [poll]. *)
Lemma pollLoop_running (fuel : nat) (t start : Z) (this : ServerSocket) :
  forall k : K,
    let '(exit, k', evs) := pollLoop fuel t start this k in
    (List.length (interrupted_polls evs) <= fuel)%nat /\
    (exit = LoopRunning <-> List.length (interrupted_polls evs) = fuel).
Proof.
  induction fuel as [|fuel IH]; intros k.
  - simpl. unfold ret. simpl. split; [lia|]. split; reflexivity.
  - simpl pollLoop. unfold bind.
    pose proof (pollOnce_cases t start this k) as Hc.
    destruct (pollOnce t start this k) as [[e k1] evs1].
    destruct Hc as (_ & Hlen & now & Hc).
    destruct e as [exit|].
    + unfold ret. rewrite app_nil_r. rewrite Hlen.
      split; [lia|]. split; [|discriminate].
      intros ->. exfalso.
      destruct Hc as [(_ & _ & E)|(_ & r & errno & _ & Hc)];
        [discriminate E|].
      destruct Hc as [(_ & E)|[(_ & _ & E)|(_ & _ & E)]]; discriminate E.
    + specialize (IH k1).
      destruct (pollLoop fuel t start this k1) as [[exit k2] evs2].
      rewrite interrupted_polls_app, length_app, Hlen.
      destruct IH as (Hle & Hiff). split; [lia|].
      rewrite Hiff. simpl. lia.
Qed.

(** The loop closes no descriptor. *)
Lemma pollLoop_closes_nothing (fuel : nat) (t start : Z)
      (this : ServerSocket) :
  forall k : K, closed_fds (events_of (pollLoop fuel t start this k)) = [].
Proof.
  induction fuel as [|fuel IH]; intros k.
  - reflexivity.
  - simpl pollLoop. unfold bind.
    pose proof (pollOnce_cases t start this k) as Hc.
    destruct (pollOnce t start this k) as [[e k1] evs1].
    destruct Hc as (Hcl & _).
    destruct e as [exit|].
    + unfold ret, events_of. simpl. rewrite app_nil_r. exact Hcl.
    + specialize (IH k1).
      destruct (pollLoop fuel t start this k1) as [[exit k2] evs2].
      unfold events_of in *. simpl in *.
      rewrite closed_fds_app, Hcl, IH. reflexivity.
Qed.

(** A loop that has ended within [fuel] turns ends the same way with more. *)
Lemma pollLoop_fuel_mono (fuel : nat) (t start : Z) (this : ServerSocket) :
  forall (k : K) (fuel' : nat),
    (fuel <= fuel')%nat ->
    value_of (pollLoop fuel t start this k) <> LoopRunning ->
    pollLoop fuel' t start this k = pollLoop fuel t start this k.
Proof.
  induction fuel as [|fuel IH]; intros k fuel' Hle Hrun.
  - simpl in Hrun. contradiction.
  - destruct fuel' as [|fuel']; [lia|].
    simpl pollLoop in *. unfold bind in *.
    destruct (pollOnce t start this k) as [[e k1] evs1].
    destruct e as [exit|]; [reflexivity|].
    rewrite (IH k1 fuel'); [reflexivity|lia|].
    destruct (pollLoop fuel t start this k1) as [[exit k2] evs2].
    exact Hrun.
Qed.

(** A wait returns only [CONN_ERROR], and its last system call shows
    why. *)
Lemma wait_trace_return (elapsed : Z -> Z) (t lfd : Z) (evs : list Event)
      (exit : LoopExit) :
  wait_trace elapsed t lfd evs exit ->
  forall code, exit = LoopReturn code ->
               code = CONN_ERROR /\
               exists pre e, evs = pre ++ [e] /\
                             wait_failure_cause elapsed t lfd e.
Proof.
  induction 1 as [|now Hout|now r errno Hin Hr|now r errno Hin Hr He
                  |now r rest exit Hin Hr Hrest IH];
    intros code E; try discriminate E.
  - injection E as <-. split; [reflexivity|].
    exists [], (EvNow now). split; [reflexivity|exact Hout].
  - injection E as <-. split; [reflexivity|].
    exists [EvNow now],
           (EvPoll lfd POLLIN (to_int (t - elapsed now)) r errno).
    split; [reflexivity|]. simpl. auto.
  - destruct (IH code E) as (Hc & pre & e & -> & Hcause).
    split; [exact Hc|].
    exists (EvNow now
              :: EvPoll lfd POLLIN (to_int (t - elapsed now)) r EINTR :: pre),
           e.
    split; [reflexivity|exact Hcause].
Qed.

(** The end of [acceptNextConnection], from [accept] on. *)
Lemma acceptTail_cases (this : ServerSocket) (k : K) :
  let '(code, this', k', evs) := acceptTail this k in
  closed_fds evs = [] /\ interrupted_polls evs = [] /\
  this' = set_fd (fd_ this') this /\
  ((code = OK /\ 0 <= fd_ this' /\
    syscalls evs = [EvAccept (listeningFd_ this) (fd_ this');
                    EvSetReadTimeout (fd_ this');
                    EvSetWriteTimeout (fd_ this')]) \/
   (code = CONN_ERROR /\ fd_ this' < 0 /\
    syscalls evs = [EvAccept (listeningFd_ this) (fd_ this')])).
Proof.
  unfold acceptTail. unfold_eff.
  destruct (os_accept (listeningFd_ this) k) as [r k1]. simpl.
  destruct (Z.ltb_spec r 0) as [Hr|Hr]; simpl.
  - repeat split. right. auto.
  - repeat split. left. auto.
Qed.

(** [acceptNextConnection] with its binds run. *)
Lemma acceptNextConnection_eq (fuel : nat) (t : Z) (this : ServerSocket)
      (k : K) :
  acceptNextConnection fuel t this k =
  let '(lcode, this1, k1, levs) := listen this k in
  match lcode with
  | OK =>
    if 0 <? t then
      let '(start, k2) := os_now k1 in
      let '(exit, k3, evs3) := pollLoop fuel t start this1 k2 in
      match exit with
      | LoopBreak =>
        let '(r, k4, evs4) := acceptTail this1 k3 in
        (Some r, k4, levs ++ EvNow start :: evs3 ++ evs4)
      | LoopReturn code =>
        (Some (code, this1), k3, levs ++ EvNow start :: evs3)
      | LoopRunning => (None, k3, levs ++ EvNow start :: evs3)
      end
    else
      let '(r, k4, evs4) := acceptTail this1 k1 in
      (Some r, k4, levs ++ evs4)
  | _ => (Some (lcode, this1), k1, levs)
  end.
Proof.
  unfold acceptNextConnection. unfold bind, ret, clock_now.
  destruct (listen this k) as [[[lcode this1] k1] levs].
  destruct lcode; simpl; rewrite ?app_nil_r; try reflexivity.
  destruct (0 <? t).
  - destruct (os_now k1) as [start k2].
    destruct (pollLoop fuel t start this1 k2) as [[exit k3] evs3].
    destruct exit; simpl; rewrite ?app_nil_r; try reflexivity.
    destruct (acceptTail this1 k3) as [[r k4] evs4].
    rewrite ?app_nil_r. reflexivity.
  - destruct (acceptTail this1 k1) as [[r k4] evs4].
    rewrite ?app_nil_r. reflexivity.
Qed.

(** C6: [acceptNextConnection] with a positive timeout, once its [listen]
    has returned [OK], reads the clock, at [start], and enters the wait,
    whose system calls follow [wait_trace] for the time elapsed since
    [start], [durationMillis] of the difference of the two readings as an
    [int]: every [poll] that returns no event with [errno] at [EINTR] is
    followed by another turn, in which the clock is read again and, when
    the time elapsed is below the timeout, [poll] is called with the timeout
    minus that time, computed in [int]; for a time elapsed that is not
    negative that is the exact remaining budget. An error comes out of the
    wait only through [wait_exhausted] or [wait_failed], never after an
    interrupted [poll]; when the wait ends on a readable descriptor the
    method goes on to [accept]. The wait is still running after [fuel]
    turns only when each of them was interrupted. *)
Theorem acceptNextConnection_retries_interrupted_wait
        (fuel : nat) (t : Z) (this : ServerSocket) (k : K) :
  0 < t ->
  let '(lcode, this1, k1, levs) := listen this k in
  lcode = OK ->
  let '(res, k', evs) := acceptNextConnection fuel t this k in
  exists (start : Z) (wevs tail : list Event) (exit : LoopExit),
    evs = levs ++ EvNow start :: wevs ++ tail /\
    wait_trace (fun now => to_int (durationMillis (now - start)))
               t (listeningFd_ this1) (syscalls wevs) exit /\
    (forall now,
        0 <= to_int (durationMillis (now - start)) < t -> t < 2 ^ 31 ->
        to_int (t - to_int (durationMillis (now - start))) =
        t - to_int (durationMillis (now - start))) /\
    (List.length (interrupted_polls wevs) <= fuel)%nat /\
    match exit with
    | LoopRunning =>
      res = None /\ tail = [] /\
      List.length (interrupted_polls wevs) = fuel
    | LoopReturn code =>
      res = Some (code, this1) /\ tail = []
    | LoopBreak =>
      exists r k3, acceptTail this1 k3 = (r, k', tail) /\ res = Some r
    end.
Proof.
  intros Ht. rewrite acceptNextConnection_eq.
  destruct (listen this k) as [[[lcode this1] k1] levs].
  intros ->.
  destruct (Z.ltb_spec 0 t) as [_|Hge]; [|lia].
  destruct (os_now k1) as [start k2].
  pose proof (pollLoop_wait_trace fuel t start this1 k2) as Hw.
  pose proof (pollLoop_running fuel t start this1 k2) as Hrun.
  destruct (pollLoop fuel t start this1 k2) as [[exit k3] evs3].
  destruct Hrun as (Hle & Hiff).
  assert (Hbudget : forall now,
             0 <= to_int (durationMillis (now - start)) < t -> t < 2 ^ 31 ->
             to_int (t - to_int (durationMillis (now - start))) =
             t - to_int (durationMillis (now - start))).
  { intros now He Hint. apply to_int_small. lia. }
  destruct exit as [|code|].
  - destruct (acceptTail this1 k3) as [[r k4] evs4] eqn:Etail.
    exists start, evs3, evs4, LoopBreak.
    split; [reflexivity|]. split; [exact Hw|]. split; [exact Hbudget|].
    split; [exact Hle|].
    exists r, k3. split; [exact Etail|reflexivity].
  - exists start, evs3, [], (LoopReturn code).
    rewrite app_nil_r.
    split; [reflexivity|]. split; [exact Hw|]. split; [exact Hbudget|].
    split; [exact Hle|].
    split; reflexivity.
  - exists start, evs3, [], LoopRunning.
    rewrite app_nil_r.
    split; [reflexivity|]. split; [exact Hw|]. split; [exact Hbudget|].
    split; [exact Hle|].
    split; [reflexivity|]. split; [reflexivity|].
    apply Hiff. reflexivity.
Qed.

(** C7: once its [listen] has returned [OK], [acceptNextConnection]
    closes nothing and leaves the listening descriptor, which is positive,
    and the port as [listen] left them. Its result is [OK] after an
    [accept] that returned a descriptor, or [CONN_ERROR] in exactly three
    cases: the [accept] call returned a negative value; the clock showed
    the positive budget used up; [poll] brought no event with an [errno]
    other than [EINTR]. The only other outcome is that the wait loop is
    still running after [fuel] turns, all of them interrupted; a result
    reached within [fuel] turns is the result for any larger number. *)
Theorem acceptNextConnection_failures (fuel : nat) (t : Z)
        (this : ServerSocket) (k : K) :
  let '(lcode, this1, k1, levs) := listen this k in
  lcode = OK ->
  let '(res, k', evs) := acceptNextConnection fuel t this k in
  exists aevs,
    evs = levs ++ aevs /\ closed_fds aevs = [] /\
    match res with
    | Some (code, this') =>
      (listeningFd_ this' = listeningFd_ this1 /\
       0 < listeningFd_ this' /\ port_ this' = port_ this1 /\
       forall k2, listen this' k2 = ((OK, this'), k2, [])) /\
      ((code = OK /\ 0 <= fd_ this' /\
        exists pre,
          syscalls aevs =
          pre ++ [EvAccept (listeningFd_ this1) (fd_ this');
                  EvSetReadTimeout (fd_ this');
                  EvSetWriteTimeout (fd_ this')]) \/
       (code = CONN_ERROR /\ fd_ this' < 0 /\
        exists pre,
          syscalls aevs =
          pre ++ [EvAccept (listeningFd_ this1) (fd_ this')]) \/
       (code = CONN_ERROR /\ 0 < t /\ this' = this1 /\
        exists start pre e,
          syscalls aevs = EvNow start :: pre ++ [e] /\
          wait_failure_cause (elapsedMillis start) t
                             (listeningFd_ this1) e)) /\
      (forall fuel', (fuel <= fuel')%nat ->
                     acceptNextConnection fuel' t this k = (res, k', evs))
    | None =>
      0 < t /\ List.length (interrupted_polls aevs) = fuel
    end.
Proof.
  rewrite acceptNextConnection_eq.
  destruct (listen this k) as [[[lcode this1] k1] levs] eqn:El.
  intros ->.
  pose proof (listen_ok_positive _ _ _ _ _ El) as Hpos.
  pose proof (acceptTail_cases this1) as Htail.
  destruct (Z.ltb_spec 0 t) as [Ht|Ht].
  - destruct (os_now k1) as [start k2] eqn:Enow.
    pose proof (pollLoop_wait_trace fuel t start this1 k2) as Hw.
    pose proof (pollLoop_running fuel t start this1 k2) as Hrun.
    pose proof (pollLoop_closes_nothing fuel t start this1 k2) as Hcl.
    pose proof (pollLoop_fuel_mono fuel t start this1 k2) as Hmono.
    destruct (pollLoop fuel t start this1 k2) as [[exit k3] evs3].
    unfold events_of, value_of in Hcl, Hmono. simpl in Hcl, Hmono.
    assert (Hsame : forall fuel', (fuel <= fuel')%nat ->
               exit <> LoopRunning ->
               acceptNextConnection fuel' t this k =
               match exit with
               | LoopBreak =>
                 let '(r, k4, evs4) := acceptTail this1 k3 in
                 (Some r, k4, levs ++ EvNow start :: evs3 ++ evs4)
               | LoopReturn code =>
                 (Some (code, this1), k3, levs ++ EvNow start :: evs3)
               | LoopRunning => (None, k3, levs ++ EvNow start :: evs3)
               end).
    { intros fuel' Hle Hne. rewrite acceptNextConnection_eq, El.
      destruct (Z.ltb_spec 0 t) as [_|Hge]; [|lia].
      rewrite Enow, (Hmono fuel' Hle Hne). reflexivity. }
    destruct exit as [|code|].
    + (* break: accept *)
      specialize (Htail k3).
      destruct (acceptTail this1 k3) as [[[code this'] k4] evs4].
      destruct Htail as (Hc4 & _ & Hthis' & Hcases).
      exists (EvNow start :: evs3 ++ evs4).
      split; [reflexivity|].
      split; [simpl; rewrite closed_fds_app, Hcl, Hc4; reflexivity|].
      split.
      { rewrite Hthis'. simpl. repeat split; auto.
        intros k5. apply listen_bound. simpl. exact Hpos. }
      split.
      * change (syscalls (EvNow start :: evs3 ++ evs4))
          with (EvNow start :: syscalls (evs3 ++ evs4)).
        rewrite syscalls_app.
        destruct Hcases as [(-> & Hfd & ->)|(-> & Hfd & ->)].
        -- left. split; [reflexivity|]. split; [exact Hfd|].
           exists (EvNow start :: syscalls evs3). reflexivity.
        -- right. left. split; [reflexivity|]. split; [exact Hfd|].
           exists (EvNow start :: syscalls evs3). reflexivity.
      * intros fuel' Hle. apply Hsame; [exact Hle|discriminate].
    + (* return from the loop *)
      destruct (wait_trace_return _ _ _ _ _ Hw _ eq_refl)
        as (-> & pre & e & Hs & Hcause).
      exists (EvNow start :: evs3).
      split; [reflexivity|]. split; [exact Hcl|].
      split.
      { repeat split; auto. intros k5. apply listen_bound. exact Hpos. }
      split.
      * right. right. split; [reflexivity|]. split; [exact Ht|].
        split; [reflexivity|].
        exists start, pre, e.
        change (syscalls (EvNow start :: evs3))
          with (EvNow start :: syscalls evs3).
        rewrite Hs. auto.
      * intros fuel' Hle. apply Hsame; [exact Hle|discriminate].
    + (* still running *)
      exists (EvNow start :: evs3).
      split; [reflexivity|]. split; [exact Hcl|].
      split; [exact Ht|].
      destruct Hrun as (_ & Hiff). apply Hiff. reflexivity.
  - specialize (Htail k1).
    assert (Hsame : forall fuel',
               acceptNextConnection fuel' t this k =
               let '(r, k4, evs4) := acceptTail this1 k1 in
               (Some r, k4, levs ++ evs4)).
    { intros fuel'. rewrite acceptNextConnection_eq, El.
      destruct (Z.ltb_spec 0 t) as [Hlt|_]; [lia|]. reflexivity. }
    destruct (acceptTail this1 k1) as [[[code this'] k4] evs4].
    destruct Htail as (Hc4 & _ & Hthis' & Hcases).
    exists evs4.
    split; [reflexivity|]. split; [exact Hc4|].
    split.
    { rewrite Hthis'. simpl. repeat split; auto.
      intros k5. apply listen_bound. simpl. exact Hpos. }
    split.
    + destruct Hcases as [(-> & Hfd & ->)|(-> & Hfd & ->)].
      * left. split; [reflexivity|]. split; [exact Hfd|].
        exists []. reflexivity.
      * right. left. split; [reflexivity|]. split; [exact Hfd|].
        exists []. reflexivity.
    + intros fuel' _. apply Hsame.
Qed.

End Accept.

(** Two interrupted waits, then a connection: the clock reads 0 at the start
    and 10, 30 and 60 at the three turns, and [poll] is called with 90, 70
    and 40 milliseconds. *)
Example accept_after_two_interruptions :
  let '(res, k', evs) :=
    acceptNextConnection 5 100 connected_socket
                         (script [0; 10; -1; 4; 30; -1; 4; 60; 1; 7]) in
  res = Some (OK, set_fd 7 connected_socket) /\
  syscalls evs =
  [EvNow 0;
   EvNow 10; EvPoll 3 POLLIN 90 (-1) EINTR;
   EvNow 30; EvPoll 3 POLLIN 70 (-1) EINTR;
   EvNow 60; EvPoll 3 POLLIN 40 1 EINTR;
   EvAccept 3 7; EvSetReadTimeout 7; EvSetWriteTimeout 7].
Proof. vm_compute. split; reflexivity. Qed.

(** A reading of the clock that makes the time elapsed the least [int]:
    with a timeout of 50 the difference wraps and [poll] is called with a
    negative timeout. *)
Example poll_timeout_wraps :
  syscalls (events_of (acceptNextConnection
                         5 50 connected_socket
                         (script [0; -2147483648; 1; 7]))) =
  [EvNow 0; EvNow (-2147483648); EvPoll 3 POLLIN (-2147483598) 1 0;
   EvAccept 3 7; EvSetReadTimeout 7; EvSetWriteTimeout 7].
Proof. vm_compute. reflexivity. Qed.

Lemma acceptNextConnection_retries_interrupted_wait_witness :
  0 < 100 /\
  fst (value_of (listen connected_socket
                        (script [0; 10; -1; 4; 30; -1; 4; 60; 1; 7]))) = OK /\
  exists start wevs tail exit,
    events_of (acceptNextConnection
                 5 100 connected_socket
                 (script [0; 10; -1; 4; 30; -1; 4; 60; 1; 7])) =
    EvNow start :: wevs ++ tail /\
    wait_trace (fun now => to_int (durationMillis (now - start)))
               100 3 (syscalls wevs) exit.
Proof.
  assert (Ht : 0 < 100) by lia.
  pose proof (acceptNextConnection_retries_interrupted_wait
                5 100 connected_socket
                (script [0; 10; -1; 4; 30; -1; 4; 60; 1; 7]) Ht) as P.
  destruct (listen connected_socket
                   (script [0; 10; -1; 4; 30; -1; 4; 60; 1; 7]))
    as [[[lcode this1] k1] levs] eqn:El.
  vm_compute in El. injection El as <- <- <- <-.
  specialize (P eq_refl).
  destruct (acceptNextConnection 5 100 connected_socket
                                 (script [0; 10; -1; 4; 30; -1; 4; 60; 1; 7]))
    as [[res k'] evs].
  destruct P as (start & wevs & tail & exit & Hevs & Hw & _).
  split; [exact Ht|]. split; [reflexivity|].
  exists start, wevs, tail, exit. split; [exact Hevs|exact Hw].
Defined.

Lemma acceptNextConnection_failures_witness :
  fst (value_of (listen connected_socket (script [0; 10; -1; 4; 100]))) = OK /\
  value_of (acceptNextConnection 5 100 connected_socket
                                 (script [0; 10; -1; 4; 100])) =
  Some (CONN_ERROR, connected_socket) /\
  0 < listeningFd_ connected_socket.
Proof.
  pose proof (acceptNextConnection_failures
                5 100 connected_socket (script [0; 10; -1; 4; 100])) as P.
  destruct (listen connected_socket (script [0; 10; -1; 4; 100]))
    as [[[lcode this1] k1] levs] eqn:El.
  vm_compute in El. injection El as <- <- <- <-.
  specialize (P eq_refl).
  destruct (acceptNextConnection 5 100 connected_socket
                                 (script [0; 10; -1; 4; 100]))
    as [[res k'] evs] eqn:Ea.
  vm_compute in Ea. injection Ea as <- <- <-.
  destruct P as (aevs & _ & _ & (_ & Hpos & _ & _) & _).
  split; [reflexivity|]. split; [reflexivity|exact Hpos].
Defined.

(** ** The class invariant

    With [socket] and [accept] returning -1 or a descriptor, as POSIX has
    it, every method keeps both descriptor members at -1 or a descriptor. *)

Section Invariant.
Context {K : Type} `{OS K}.
Hypothesis socket_posix :
  forall f t p (k : K), -1 <= fst (os_socket f t p k).
Hypothesis accept_posix :
  forall fd (k : K), -1 <= fst (os_accept fd k).

Lemma new_valid (options : WdtOptions) (port backlog : Z) (chk : Ptr) :
  descriptors_valid (ServerSocket_new options port backlog chk).
Proof. unfold descriptors_valid. simpl. lia. Qed.

Lemma move_valid (this that : ServerSocket) :
  descriptors_valid this -> descriptors_valid that ->
  descriptors_valid (fst (move_assign this that)) /\
  descriptors_valid (snd (move_assign this that)) /\
  descriptors_valid (fst (move_construct that)) /\
  descriptors_valid (snd (move_construct that)).
Proof.
  unfold descriptors_valid. rewrite move_assign_spec. simpl. lia.
Qed.

Lemma bindLoop_valid (infoList : list addrinfo) :
  forall (this : ServerSocket) (k : K),
    descriptors_valid this ->
    descriptors_valid (value_of (bindLoop infoList this k)).
Proof.
  induction infoList as [|info rest IH]; intros this k Hv.
  - exact Hv.
  - destruct this as [p b lfd cfd sa chk].
    unfold descriptors_valid in Hv. simpl in Hv.
    simpl bindLoop. unfold_eff. unfold bindSucceeded. unfold_eff. simpl.
    pose proof (socket_posix (ai_family info) (ai_socktype info)
                             (ai_protocol info) k) as Hs.
    repeat step_eff;
      repeat match goal with
      | |- context [bindLoop rest ?s ?k0] =>
        let IH' := fresh "IH'" in
        pose proof (IH s k0) as IH';
        destruct (bindLoop rest s k0) as [[this' k'] evs];
        unfold value_of in IH'; simpl in IH'; unfold value_of; simpl;
        apply IH'
      end;
      unfold value_of, descriptors_valid; simpl in *; lia.
Qed.

Lemma listen_valid (this : ServerSocket) (k : K) :
  descriptors_valid this ->
  descriptors_valid (snd (value_of (listen this k))).
Proof.
  intros Hv. unfold listen.
  destruct (0 <? listeningFd_ this); [exact Hv|].
  unfold_eff.
  destruct (os_getaddrinfo (port_ this) (sa_ this) k)
    as [[res infoList] k1].
  simpl.
  destruct (negb (res =? 0)); simpl; [exact Hv|].
  pose proof (bindLoop_valid infoList this k1 Hv) as Hb.
  destruct (bindLoop infoList this k1) as [[this1 k2] evs1].
  unfold value_of in Hb. simpl in Hb.
  destruct (listeningFd_ this1 <=? 0); simpl; [exact Hb|].
  name_call. simpl.
  destruct (negb (r =? 0)); simpl; [|exact Hb].
  name_call. unfold value_of, descriptors_valid in *. simpl. lia.
Qed.

Lemma acceptNextConnection_valid (fuel : nat) (t : Z) (this : ServerSocket)
      (k : K) (code : ErrorCode) (this' : ServerSocket) :
  descriptors_valid this ->
  value_of (acceptNextConnection fuel t this k) = Some (code, this') ->
  descriptors_valid this'.
Proof.
  intros Hv. rewrite acceptNextConnection_eq.
  pose proof (listen_valid this k Hv) as Hl.
  destruct (listen this k) as [[[lcode this1] k1] levs].
  unfold value_of in Hl. simpl in Hl.
  assert (Htail : forall k0 r,
             value_of (acceptTail this1 k0) = r ->
             descriptors_valid (snd r)).
  { intros k0 r <-. unfold acceptTail. unfold_eff.
    pose proof (accept_posix (listeningFd_ this1) k0) as Ha.
    destruct (os_accept (listeningFd_ this1) k0) as [fd k2].
    simpl in *.
    destruct (fd <? 0); unfold value_of, descriptors_valid in *;
      simpl; lia. }
  destruct lcode; unfold value_of; simpl;
    try (intros E; injection E as <- <-; exact Hl).
  destruct (0 <? t).
  - destruct (os_now k1) as [start k2].
    destruct (pollLoop fuel t start this1 k2) as [[exit k3] evs3].
    destruct exit as [|c|]; simpl.
    + specialize (Htail k3).
      destruct (acceptTail this1 k3) as [[r k4] evs4].
      simpl. intros E. injection E as ->.
      exact (Htail _ eq_refl).
    + intros E. injection E as <- <-. exact Hl.
    + discriminate.
  - specialize (Htail k1).
    destruct (acceptTail this1 k1) as [[r k4] evs4].
    simpl. intros E. injection E as ->.
    exact (Htail _ eq_refl).
Qed.

Lemma close_valid (this : ServerSocket) (k : K) :
  descriptors_valid this ->
  descriptors_valid (value_of (closeAll this k)) /\
  descriptors_valid (snd (value_of (closeCurrentConnection this k))).
Proof.
  intros [Hl Hf]. split.
  - pose proof (closeAll_spec this k) as Hs.
    destruct (closeAll this k) as [[this' k'] evs].
    destruct Hs as (_ & Hfd & Hlfd & _).
    unfold value_of, descriptors_valid. simpl.
    rewrite Hfd, Hlfd.
    destruct (0 <=? fd_ this); destruct (0 <=? listeningFd_ this); lia.
  - unfold closeCurrentConnection. unfold_eff.
    destruct (0 <=? fd_ this).
    + name_call. unfold value_of, descriptors_valid. simpl. lia.
    + unfold value_of, descriptors_valid. simpl. lia.
Qed.

End Invariant.

(** ** More on bind and listen *)

Section ListenMore.
Context {K : Type} `{OS K}.

Lemma opened_fds_app (l1 l2 : list Event) :
  opened_fds (l1 ++ l2) = opened_fds l1 ++ opened_fds l2.
Proof.
  induction l1 as [|e l1 IH]; simpl; [reflexivity|].
  destruct e; simpl; rewrite ?IH; try reflexivity.
  match goal with
  | |- context [?r =? -1] => destruct (r =? -1)
  end; simpl; rewrite ?IH; reflexivity.
Qed.

(** [listen] with its binds run. *)
Lemma listen_eq (this : ServerSocket) (k : K) :
  listen this k =
  if 0 <? listeningFd_ this then ((OK, this), k, [])
  else
    let '((res, infoList), k1) :=
      os_getaddrinfo (port_ this) (sa_ this) k in
    let gai := EvGetaddrinfo (port_ this) (sa_ this) res infoList in
    if negb (res =? 0) then
      ((CONN_ERROR, this), k1,
       [gai; EvLog ERROR "Failed getaddrinfo ai_passive on "
                   [port_ this; res]])
    else
      let '(this1, k2, evs1) := bindLoop infoList this k1 in
      if listeningFd_ this1 <=? 0 then
        ((CONN_ERROR_RETRYABLE, this1), os_freeaddrinfo k2,
         gai :: evs1 ++ [EvFreeaddrinfo;
                         EvLog ERROR "Unable to bind port " [port_ this1]])
      else
        let '(r, k3) := os_listen (listeningFd_ this1) (backlog_ this1)
                                  (os_freeaddrinfo k2) in
        if negb (r =? 0) then
          let '(cr, k4) := os_close (listeningFd_ this1) k3 in
          ((CONN_ERROR_RETRYABLE, set_listeningFd (-1) this1), k4,
           gai :: evs1 ++
               [EvFreeaddrinfo;
                EvListen (listeningFd_ this1) (backlog_ this1) r;
                EvLog ERROR "listen error for port " [port_ this1];
                EvClose (listeningFd_ this1) cr])
        else
          ((OK, this1), k3,
           gai :: evs1 ++
               [EvFreeaddrinfo;
                EvListen (listeningFd_ this1) (backlog_ this1) r]).
Proof.
  unfold listen. destruct (0 <? listeningFd_ this); [reflexivity|].
  unfold_eff.
  destruct (os_getaddrinfo (port_ this) (sa_ this) k) as [[res infoList] k1].
  simpl.
  destruct (negb (res =? 0)); [reflexivity|].
  destruct (bindLoop infoList this k1) as [[this1 k2] evs1].
  destruct (listeningFd_ this1 <=? 0); simpl; [reflexivity|].
  destruct (os_listen (listeningFd_ this1) (backlog_ this1)
                      (os_freeaddrinfo k2)) as [r k3].
  simpl.
  destruct (negb (r =? 0)); simpl; [|reflexivity].
  destruct (os_close (listeningFd_ this1) k3) as [cr k4]. reflexivity.
Qed.

(** The sockets of the candidate loop: it closes only sockets it created,
    and the descriptor it leaves is the one it found, -1, or one of them. *)
Lemma bindLoop_opened (infoList : list addrinfo) :
  forall (this : ServerSocket) (k : K),
    let '(this', k', evs) := bindLoop infoList this k in
    (forall fd, In fd (closed_fds evs) -> In fd (opened_fds evs)) /\
    (listeningFd_ this' = listeningFd_ this \/
     listeningFd_ this' = -1 \/
     In (listeningFd_ this') (opened_fds evs)).
Proof.
  induction infoList as [|info rest IH]; intros this k.
  - simpl. unfold ret. split; [intros fd []|]. left. reflexivity.
  - destruct this as [p b lfd cfd sa chk].
    simpl bindLoop. unfold_eff. unfold bindSucceeded. unfold_eff. simpl.
    repeat step_eff;
      repeat match goal with
      | |- context [bindLoop rest ?s ?k0] =>
        let IH' := fresh "IH'" in
        pose proof (IH s k0) as IH';
        destruct (bindLoop rest s k0) as [[this' k'] evs];
        destruct IH' as (Hsub & Hdesc); simpl in Hdesc
      end;
      simpl;
      repeat match goal with
      | |- context [?a =? -1] =>
        destruct (Z.eqb_spec a (-1)); try lia
      end;
      simpl.
    all: split;
      [ intros fd Hin; simpl in *; intuition
      | simpl in *; try (destruct Hdesc as [E|[E|E]]);
        try (right; left; lia); auto 6 ].
Qed.

(** The port through the candidate loop: kept, or, when it was 0, set from
    a [getsockname] that succeeded. *)
Lemma bindLoop_port (infoList : list addrinfo) :
  forall (this : ServerSocket) (k : K),
    let '(this', k', evs) := bindLoop infoList this k in
    port_ this' = port_ this \/
    (port_ this = 0 /\
     exists fd r sp, In (EvGetsockname fd r sp) evs /\ r <> -1 /\
                     port_ this' = ntohs sp).
Proof.
  induction infoList as [|info rest IH]; intros this k.
  - simpl. unfold ret. left. reflexivity.
  - destruct this as [p b lfd cfd sa chk].
    simpl bindLoop. unfold_eff. unfold bindSucceeded. unfold_eff. simpl.
    repeat step_eff;
      repeat match goal with
      | |- context [bindLoop rest ?s ?k0] =>
        let IH' := fresh "IH'" in
        pose proof (IH s k0) as IH';
        destruct (bindLoop rest s k0) as [[this' k'] evs];
        simpl in IH'
      end;
      simpl.
    all: try (destruct IH' as [E|(E & fd & r' & sp & Hin & Hr & Hp)];
              [ left; exact E
              | right; split; [exact E|];
                exists fd, r', sp; split; [|auto];
                simpl; auto 10 ]).
    all: try (left; reflexivity).
    right. split; [assumption|].
    do 3 eexists. split; [|split; [|reflexivity]].
    + right. right. right. left. reflexivity.
    + assumption.
Qed.

(** With a port other than 0 the loop either fails on every candidate,
    having closed each socket it created, or stops at the first candidate it
    could bind, which it stores in [sa_], holding that socket. *)
Lemma bindLoop_sockets (infoList : list addrinfo) :
  forall (this : ServerSocket) (k : K),
    port_ this <> 0 ->
    let '(this', k', evs) := bindLoop infoList this k in
    (opened_fds evs = closed_fds evs /\ sa_ this' = sa_ this /\
     socket_calls evs = map socket_args infoList /\
     listeningFd_ this' = match infoList with
                          | [] => listeningFd_ this
                          | _ :: _ => -1
                          end) \/
    (exists pre info post,
        infoList = pre ++ info :: post /\ sa_ this' = info /\
        socket_calls evs = map socket_args (pre ++ [info]) /\
        listeningFd_ this' <> -1 /\
        opened_fds evs = closed_fds evs ++ [listeningFd_ this'] /\
        In (EvBind (listeningFd_ this') (ai_addr info) (ai_addrlen info) 0)
           evs).
Proof.
  induction infoList as [|info rest IH]; intros this k Hport.
  - simpl. unfold ret. left. repeat split; reflexivity.
  - destruct this as [p b lfd cfd sa chk]. simpl in Hport.
    simpl bindLoop. unfold_eff. unfold bindSucceeded. unfold_eff. simpl.
    repeat step_eff; try contradiction;
      repeat match goal with
      | |- context [bindLoop rest ?s ?k0] =>
        let IH' := fresh "IH'" in
        pose proof (IH s k0 Hport) as IH';
        destruct (bindLoop rest s k0) as [[this' k'] evs];
        simpl in IH'
      end;
      simpl;
      repeat match goal with
      | |- context [?a =? -1] =>
        destruct (Z.eqb_spec a (-1)); try lia
      end;
      simpl.
    all: try (destruct IH' as [(Ho & Hsa & Hs & Hl)
                              |(pre & i & post & -> & Hsa & Hs & Hl & Ho
                                & Hin)];
              [ left; rewrite Ho, Hs; repeat split; auto;
                destruct rest; simpl in *; try lia; auto
              | right; exists (info :: pre), i, post;
                rewrite Ho, Hs; repeat split; auto; simpl; auto 10 ]).
    right. exists [], info, rest. subst.
    repeat split; auto.
Qed.

Lemma bind_results_app (l1 l2 : list Event) :
  bind_results (l1 ++ l2) = bind_results l1 ++ bind_results l2.
Proof.
  induction l1 as [|e l1 IH]; simpl; [reflexivity|].
  destruct e; simpl; rewrite ?IH; reflexivity.
Qed.

Lemma in_bind_results (evs : list Event) (fd : Z) (a : Ptr) (len r : Z) :
  In (EvBind fd a len r) evs -> In r (bind_results evs).
Proof.
  induction evs as [|e evs IH]; simpl; [tauto|].
  intros [->|Hin]; [left; reflexivity|].
  destruct e; simpl; auto.
Qed.

(** With a port other than 0 the loop makes no [bind] call after one that
    succeeded: its [bind] calls all fail, or all fail but the last. *)
Lemma bindLoop_binds (infoList : list addrinfo) :
  forall (this : ServerSocket) (k : K),
    port_ this <> 0 ->
    let '(this', k', evs) := bindLoop infoList this k in
    Forall (fun r => r <> 0) (bind_results evs) \/
    exists fails, bind_results evs = fails ++ [0] /\
                  Forall (fun r => r <> 0) fails.
Proof.
  induction infoList as [|info rest IH]; intros this k Hport.
  - simpl. unfold ret. left. constructor.
  - destruct this as [p b lfd cfd sa chk]. simpl in Hport.
    simpl bindLoop. unfold_eff. unfold bindSucceeded. unfold_eff. simpl.
    repeat step_eff; try contradiction;
      repeat match goal with
      | |- context [bindLoop rest ?s ?k0] =>
        let IH' := fresh "IH'" in
        pose proof (IH s k0 Hport) as IH';
        destruct (bindLoop rest s k0) as [[this' k'] evs];
        simpl in IH'
      end;
      simpl.
    all: try (right; exists []; subst; split; [reflexivity|constructor];
              fail).
    all: match goal with
         | IHx : Forall _ _ \/ _ |- _ =>
           destruct IHx as [Hall|(fails & Hf & Hall)];
           [ left; try constructor; assumption
           | right; rewrite Hf;
             first [ exists fails; split; [reflexivity|assumption]
                   | eexists (_ :: fails);
                     split; [reflexivity|constructor; assumption] ] ]
         end.
Qed.

(** The first steps of [listen]: the guard, the resolution and its test. *)
Ltac listen_cases this k :=
  rewrite (listen_eq this k);
  destruct (Z.ltb_spec 0 (listeningFd_ this)) as [Hbound|Hunbound];
  [| destruct (os_getaddrinfo (port_ this) (sa_ this) k)
       as [[res infoList] k1] eqn:Egai;
     cbv zeta;
     destruct (Z.eqb_spec res 0) as [Eres|Eres]; simpl negb; cbv iota ].

(** The rest of [listen] after the candidate loop. *)
Ltac listen_tail this1 k2 :=
  destruct (Z.leb_spec (listeningFd_ this1) 0) as [Hnone|Hsome];
  [| destruct (os_listen (listeningFd_ this1) (backlog_ this1)
                         (os_freeaddrinfo k2)) as [r k3] eqn:Elisten;
     destruct (Z.eqb_spec r 0) as [Er|Er]; simpl negb; cbv iota;
     [| destruct (os_close (listeningFd_ this1) k3) as [cr k4] eqn:Eclose ] ].

(** X1: the return code of [listen] read off the state. [listen] returns
    [OK] exactly when it leaves a positive listening descriptor, and
    [CONN_ERROR] exactly when it had to bind and [getaddrinfo] failed; in
    that case the object is as it was. Every other outcome is
    [CONN_ERROR_RETRYABLE]. *)
Theorem listen_outcome (this : ServerSocket) (k : K) :
  let '(code, this', k', evs) := listen this k in
  (code = OK <-> 0 < listeningFd_ this') /\
  (code = CONN_ERROR <->
   listeningFd_ this <= 0 /\
   fst (fst (os_getaddrinfo (port_ this) (sa_ this) k)) <> 0) /\
  (code = CONN_ERROR -> this' = this).
Proof.
  listen_cases this k.
  - split; [tauto|]. split; [|discriminate].
    split; [discriminate|]. intros (Hle & _). lia.
  - destruct (bindLoop infoList this k1) as [[this1 k2] evs1].
    listen_tail this1 k2; simpl.
    + split; [split; [discriminate|lia]|]. split; [|discriminate].
      split; [discriminate|]. intros (_ & Hne). contradiction.
    + split; [tauto|]. split; [|discriminate].
      split; [discriminate|]. intros (_ & Hne). contradiction.
    + split; [split; [discriminate|lia]|]. split; [|discriminate].
      split; [discriminate|]. intros (_ & Hne). contradiction.
  - simpl. split; [split; [discriminate|lia]|]. split; [|reflexivity].
    split; [auto|reflexivity].
Qed.

(** X2: after a [listen] that returned [OK], another [listen] returns [OK],
    makes no call at all and changes neither the object nor the outside
    world. *)
Theorem listen_again_is_noop (this : ServerSocket) (k : K) :
  let '(code, this', k', evs) := listen this k in
  code = OK ->
  forall k2, listen this' k2 = ((OK, this'), k2, []).
Proof.
  destruct (listen this k) as [[[code this'] k'] evs] eqn:El.
  intros -> k2. apply listen_bound.
  exact (listen_ok_positive _ _ _ _ _ El).
Qed.

(** X3: [listen] never changes the connection descriptor, the backlog or the
    abort checker. The port is kept as it is, except that a port of 0 may be
    replaced by the port a successful [getsockname] of this call reported,
    a value below 65536. *)
Theorem listen_frame (this : ServerSocket) (k : K) :
  let '(code, this', k', evs) := listen this k in
  fd_ this' = fd_ this /\ backlog_ this' = backlog_ this /\
  abortChecker_ this' = abortChecker_ this /\
  (port_ this' = port_ this \/
   (port_ this = 0 /\ 0 <= port_ this' < 65536 /\
    exists fd r sp, In (EvGetsockname fd r sp) evs /\ r <> -1 /\
                    port_ this' = ntohs sp)).
Proof.
  listen_cases this k.
  - repeat split; auto.
  - pose proof (bindLoop_inv infoList this k1) as Hinv.
    pose proof (bindLoop_port infoList this k1) as Hport.
    destruct (bindLoop infoList this k1) as [[this1 k2] evs1].
    destruct Hinv as (_ & (Hb & Hf & Hc) & _).
    assert (Hp : forall tl,
               port_ this1 = port_ this \/
               (port_ this = 0 /\ 0 <= port_ this1 < 65536 /\
                exists fd r sp,
                  In (EvGetsockname fd r sp)
                     (EvGetaddrinfo (port_ this) (sa_ this) res infoList
                                    :: evs1 ++ tl) /\
                  r <> -1 /\ port_ this1 = ntohs sp)).
    { intros tl. destruct Hport as [E|(E & fd & r & sp & Hin & Hr & Hp)].
      - left. exact E.
      - right. split; [exact E|]. split.
        + rewrite Hp. apply ntohs_range.
        + exists fd, r, sp. split; [|auto].
          right. rewrite in_app_iff. left. exact Hin. }
    listen_tail this1 k2; cbv beta iota zeta;
      repeat split; try (simpl; assumption); apply Hp.
  - simpl. repeat split; auto.
Qed.

(** X4: [listen] closes only sockets that a [socket] call of the same
    [listen] returned. *)
Theorem listen_closes_only_own_sockets (this : ServerSocket) (k : K) :
  forall fd, In fd (closed_fds (events_of (listen this k))) ->
             In fd (opened_fds (events_of (listen this k))).
Proof.
  listen_cases this k.
  - intros fd [].
  - pose proof (bindLoop_opened infoList this k1) as Hop.
    destruct (bindLoop infoList this k1) as [[this1 k2] evs1].
    destruct Hop as (Hsub & Hdesc).
    listen_tail this1 k2; unfold events_of; simpl;
      rewrite closed_fds_app, opened_fds_app; simpl;
      rewrite ?app_nil_r; intros fd Hin.
    + apply Hsub. exact Hin.
    + apply Hsub. exact Hin.
    + apply in_app_iff in Hin. destruct Hin as [Hin|[<-|[]]].
      * apply Hsub. exact Hin.
      * destruct Hdesc as [E|[E|Hin]]; [lia|lia|exact Hin].
  - intros fd [].
Qed.

(** X5: no socket is lost when the port is given. For a port other than 0
    and no listening descriptor stored, the sockets a [listen] created are,
    in order, those it closed and then the one it left in the listening
    descriptor member, if any. *)
Theorem listen_keeps_or_closes_its_sockets (this : ServerSocket) (k : K) :
  port_ this <> 0 ->
  listeningFd_ this = -1 ->
  let '(code, this', k', evs) := listen this k in
  opened_fds evs = closed_fds evs ++ kept_fd this'.
Proof.
  intros Hport Hlfd. listen_cases this k; [lia| |].
  - pose proof (bindLoop_sockets infoList this k1 Hport) as Hs.
    destruct (bindLoop infoList this k1) as [[this1 k2] evs1].
    assert (Hkept : (opened_fds evs1 = closed_fds evs1 /\
                     listeningFd_ this1 = -1) \/
                    (opened_fds evs1 = closed_fds evs1 ++ [listeningFd_ this1]
                     /\ listeningFd_ this1 <> -1)).
    { destruct Hs as [(Ho & _ & _ & Hl)|(pre & i & post & _ & _ & _ & Hl & Ho
                                         & _)].
      - left. split; [exact Ho|]. destruct infoList; lia.
      - right. auto. }
    listen_tail this1 k2; simpl;
      rewrite closed_fds_app, opened_fds_app; simpl;
      rewrite ?app_nil_r; unfold kept_fd; simpl.
    + destruct Hkept as [(Ho & Hl)|(Ho & Hl)]; rewrite Ho.
      * rewrite Hl. simpl. rewrite app_nil_r. reflexivity.
      * destruct (Z.eqb_spec (listeningFd_ this1) (-1)); [contradiction|].
        reflexivity.
    + destruct Hkept as [(Ho & Hl)|(Ho & Hl)]; [lia|]. rewrite Ho.
      destruct (Z.eqb_spec (listeningFd_ this1) (-1)); [contradiction|].
      reflexivity.
    + destruct Hkept as [(Ho & Hl)|(Ho & Hl)]; [lia|]. exact Ho.
  - simpl. unfold kept_fd. rewrite Hlfd. reflexivity.
Qed.

(** X6: the first candidate that binds wins. When a [listen] that had to
    bind, for a port other than 0, returns [OK], the candidates of
    [getaddrinfo] were tried in order up to one whose [bind] succeeded on
    the descriptor now stored; that was the last [bind] call and the only
    one that succeeded. That candidate is recorded in [sa_], the candidates
    after it were not tried, and the port is unchanged. *)
Theorem listen_first_bind_wins (this : ServerSocket) (k : K) :
  port_ this <> 0 ->
  listeningFd_ this <= 0 ->
  let '(code, this', k', evs) := listen this k in
  code = OK ->
  exists pre info post,
    snd (fst (os_getaddrinfo (port_ this) (sa_ this) k)) =
    pre ++ info :: post /\
    sa_ this' = info /\
    socket_calls evs = map socket_args (pre ++ [info]) /\
    In (EvBind (listeningFd_ this') (ai_addr info) (ai_addrlen info) 0) evs /\
    (exists fails, bind_results evs = fails ++ [0] /\
                   Forall (fun r => r <> 0) fails) /\
    port_ this' = port_ this.
Proof.
  intros Hport Hlfd. listen_cases this k; [lia| |].
  - pose proof (bindLoop_sockets infoList this k1 Hport) as Hs.
    pose proof (bindLoop_binds infoList this k1 Hport) as Hbinds.
    pose proof (bindLoop_port infoList this k1) as Hp.
    destruct (bindLoop infoList this k1) as [[this1 k2] evs1].
    assert (Hp' : port_ this1 = port_ this).
    { destruct Hp as [E|(E & _)]; [exact E|contradiction]. }
    listen_tail this1 k2; simpl; try discriminate.
    intros _.
    destruct Hs as [(_ & _ & _ & Hl)|(pre & i & post & -> & Hsa & Hsc & _ & _
                                      & Hin)].
    { destruct infoList; lia. }
    exists pre, i, post. split; [reflexivity|]. split; [exact Hsa|].
    split.
    + rewrite socket_calls_app, Hsc. simpl. apply app_nil_r.
    + split; [right; rewrite in_app_iff; left; exact Hin|].
      split; [|exact Hp'].
      rewrite bind_results_app. simpl. rewrite app_nil_r.
      destruct Hbinds as [Hall|Hlast]; [|exact Hlast].
      exfalso. apply in_bind_results in Hin.
      rewrite Forall_forall in Hall. exact (Hall 0 Hin eq_refl).
  - simpl. discriminate.
Qed.

End ListenMore.

(** ** More on accept *)

Section AcceptMore.
Context {K : Type} `{OS K}.

Lemma in_syscalls (e : Event) (evs : list Event) :
  In e (syscalls evs) <-> In e evs /\ is_syscall e = true.
Proof. unfold syscalls. apply filter_In. Qed.

(** [listen] makes no call but those of resolution, binding and listening. *)
Lemma listen_events (this : ServerSocket) (k : K) :
  forallb is_listen_event (events_of (listen this k)) = true.
Proof.
  rewrite listen_eq.
  destruct (0 <? listeningFd_ this); [reflexivity|].
  destruct (os_getaddrinfo (port_ this) (sa_ this) k) as [[res infoList] k1].
  cbv zeta. destruct (negb (res =? 0)); [reflexivity|].
  pose proof (bindLoop_inv infoList this k1) as Hinv.
  destruct (bindLoop infoList this k1) as [[this1 k2] evs1].
  destruct Hinv as (Hev & _).
  assert (Hev' : forallb is_listen_event evs1 = true).
  { rewrite forallb_forall in *. intros e Hin.
    specialize (Hev e Hin). destruct e; try discriminate Hev; reflexivity. }
  destruct (listeningFd_ this1 <=? 0).
  { unfold events_of. simpl. rewrite forallb_app, Hev'. reflexivity. }
  destruct (os_listen _ _ _) as [r k3].
  destruct (negb (r =? 0)).
  - destruct (os_close _ _) as [cr k4].
    unfold events_of. simpl. rewrite forallb_app, Hev'. reflexivity.
  - unfold events_of. simpl. rewrite forallb_app, Hev'. reflexivity.
Qed.

(** The calls of a wait are readings of the clock and polls, each poll on
    the listening descriptor, for input, with the timeout computed from a
    reading of the clock of the same wait. *)
Lemma wait_trace_events (elapsed : Z -> Z) (t lfd : Z) (evs : list Event)
      (exit : LoopExit) :
  wait_trace elapsed t lfd evs exit ->
  forall e, In e evs ->
            is_wait_event e = true /\
            forall fd ev timeout r errno,
              e = EvPoll fd ev timeout r errno ->
              fd = lfd /\ ev = POLLIN /\
              exists now, In (EvNow now) evs /\ elapsed now < t /\
                          timeout = to_int (t - elapsed now).
Proof.
  induction 1 as [|now Hout|now r errno Hin Hr|now r errno Hin Hr He
                  |now r rest exit Hin Hr Hrest IH];
    intros e He'; simpl in He'.
  - contradiction.
  - destruct He' as [<-|[]]. split; [reflexivity|]. discriminate.
  - destruct He' as [<-|[<-|[]]]; (split; [reflexivity|]);
      try discriminate.
    intros fd ev timeout r' errno' E. injection E as <- <- <- _ _.
    split; [reflexivity|]. split; [reflexivity|].
    exists now. split; [left; reflexivity|]. split; [exact Hin|reflexivity].
  - destruct He' as [<-|[<-|[]]]; (split; [reflexivity|]);
      try discriminate.
    intros fd ev timeout r' errno' E. injection E as <- <- <- _ _.
    split; [reflexivity|]. split; [reflexivity|].
    exists now. split; [left; reflexivity|]. split; [exact Hin|reflexivity].
  - destruct He' as [<-|[<-|He']]; try (split; [reflexivity|]);
      try discriminate.
    + intros fd ev timeout r' errno' E. injection E as <- <- <- _ _.
      split; [reflexivity|]. split; [reflexivity|].
      exists now. split; [left; reflexivity|].
      split; [exact Hin|reflexivity].
    + destruct (IH e He') as (Hw & Hp). split; [exact Hw|].
      intros fd ev timeout r' errno' E.
      destruct (Hp _ _ _ _ _ E) as (Hfd & Hev & now' & Hn & Hlt & Hto).
      split; [exact Hfd|]. split; [exact Hev|].
      exists now'. split; [right; right; exact Hn|]. auto.
Qed.

Lemma to_int_range (z : Z) : - 2 ^ 31 <= to_int z < 2 ^ 31.
Proof.
  unfold to_int.
  pose proof (Z.mod_pos_bound (z + 2 ^ 31) (2 ^ 32) ltac:(lia)). lia.
Qed.

(** The timeout of a poll as an [int], for an [int] timeout [t] and an
    elapsed time [e] below it. *)
Lemma to_int_remaining (e t : Z) :
  - 2 ^ 31 <= e -> e < t -> t < 2 ^ 31 ->
  to_int (t - e) <> 0 /\
  (0 <= e -> to_int (t - e) = t - e) /\
  (e <= t - 2 ^ 31 -> to_int (t - e) = t - e - 2 ^ 32).
Proof.
  intros Hlo Hlt Hint.
  assert (Hbig : 2 ^ 31 <= t - e -> to_int (t - e) = t - e - 2 ^ 32).
  { intros Hge. unfold to_int.
    rewrite <- (Z.mod_unique_pos (t - e + 2 ^ 31) (2 ^ 32) 1
                                 (t - e + 2 ^ 31 - 2 ^ 32)); lia. }
  assert (Hsmall : t - e < 2 ^ 31 -> to_int (t - e) = t - e).
  { intros Hs. apply to_int_small. lia. }
  split; [|split].
  - destruct (Z.lt_ge_cases (t - e) (2 ^ 31)) as [Hs|Hb].
    + rewrite (Hsmall Hs). lia.
    + rewrite (Hbig Hb). lia.
  - intros He. apply Hsmall. lia.
  - intros He. apply Hbig. lia.
Qed.

(** X7: [CONN_ERROR_RETRYABLE] never comes out of the accept phase. When
    the [listen] at the start of [acceptNextConnection] does not return
    [OK], the method returns that code with the state, outside world and
    events of [listen], for every timeout: it reads no clock and makes no
    [poll] or [accept] call. A [CONN_ERROR_RETRYABLE] from
    [acceptNextConnection] is always the one of its [listen]. *)
Theorem acceptNextConnection_listen_error (fuel : nat) (t : Z)
        (this : ServerSocket) (k : K) :
  let '(lcode, this1, k1, levs) := listen this k in
  let '(res, k', evs) := acceptNextConnection fuel t this k in
  (lcode <> OK ->
   res = Some (lcode, this1) /\ k' = k1 /\ evs = levs /\
   forallb is_listen_event evs = true) /\
  (forall this', res = Some (CONN_ERROR_RETRYABLE, this') ->
                 lcode = CONN_ERROR_RETRYABLE).
Proof.
  rewrite acceptNextConnection_eq.
  pose proof (listen_events this k) as Hev.
  destruct (listen this k) as [[[lcode this1] k1] levs].
  unfold events_of in Hev. simpl in Hev.
  destruct lcode;
    try (split; [intros _; repeat split; auto
                |intros this' E; try discriminate E; reflexivity]; fail).
  destruct (0 <? t).
  - destruct (os_now k1) as [start k2].
    pose proof (pollLoop_wait_trace fuel t start this1 k2) as Hw.
    destruct (pollLoop fuel t start this1 k2) as [[exit k3] evs3].
    destruct exit as [|code|].
    + pose proof (acceptTail_cases this1 k3) as Ht.
      destruct (acceptTail this1 k3) as [[[c s] k4] evs4].
      split; [intros Hne; contradiction|]. intros this' E.
      destruct Ht as (_ & _ & _ & [(-> & _)|(-> & _)]); discriminate.
    + split; [intros Hne; contradiction|]. intros this' E.
      destruct (wait_trace_return _ _ _ _ _ Hw _ eq_refl) as (-> & _).
      discriminate.
    + split; [intros Hne; contradiction|]. intros this' E. discriminate.
  - pose proof (acceptTail_cases this1 k1) as Ht.
    destruct (acceptTail this1 k1) as [[[c s] k4] evs4].
    split; [intros Hne; contradiction|]. intros this' E.
    destruct Ht as (_ & _ & _ & [(-> & _)|(-> & _)]); discriminate.
Qed.

(** X8: a timeout of zero or below switches the wait off. The method then
    reads no clock and makes no [poll]; after [listen] it goes straight to
    [accept], so it always returns, whatever the number of turns allowed to
    the loop. *)
Theorem acceptNextConnection_without_timeout (fuel : nat) (t : Z)
        (this : ServerSocket) (k : K) :
  t <= 0 ->
  let '(res, k', evs) := acceptNextConnection fuel t this k in
  res <> None /\
  (forall e, In e evs -> is_wait_event e = false) /\
  acceptNextConnection O t this k = (res, k', evs).
Proof.
  intros Ht. rewrite !acceptNextConnection_eq.
  pose proof (listen_events this k) as Hev.
  destruct (listen this k) as [[[lcode this1] k1] levs].
  unfold events_of in Hev. simpl in Hev.
  assert (Hl : forall e, In e levs -> is_wait_event e = false).
  { rewrite forallb_forall in Hev. intros e Hin.
    specialize (Hev e Hin). destruct e; try discriminate Hev; reflexivity. }
  destruct (Z.ltb_spec 0 t) as [Hlt|_]; [lia|].
  destruct lcode; try (split; [discriminate|split; [exact Hl|reflexivity]]).
  pose proof (acceptTail_cases this1 k1) as Htail.
  destruct (acceptTail this1 k1) as [[r k4] evs4].
  destruct r as [code this'].
  destruct Htail as (_ & _ & _ & Hcases).
  split; [discriminate|]. split; [|reflexivity].
  intros e Hin. apply in_app_iff in Hin. destruct Hin as [Hin|Hin].
  - apply Hl. exact Hin.
  - destruct (is_syscall e) eqn:Es.
    + assert (Hs : In e (syscalls evs4)) by (apply in_syscalls; auto).
      destruct Hcases as [(_ & _ & E)|(_ & _ & E)]; rewrite E in Hs;
        simpl in Hs; intuition; subst; reflexivity.
    + destruct e; try discriminate Es. reflexivity.
Qed.

(** X9: every [poll] of [acceptNextConnection] is made on the listening
    descriptor [listen] left, for input only, after an [OK] listen and with
    a positive [timeoutMillis]. Its timeout is [timeoutMillis] minus the
    time elapsed at a reading of the clock of the same wait, below
    [timeoutMillis], since the reading at the start, computed in [int]. For
    an [int] [timeoutMillis] that timeout is never 0; it is positive and at
    most [timeoutMillis] when the time elapsed is not negative, and it is
    negative, the difference having wrapped, when the time elapsed is at
    most [timeoutMillis - 2^31]. *)
Theorem acceptNextConnection_polls (fuel : nat) (t : Z)
        (this : ServerSocket) (k : K) :
  let '(lcode, this1, k1, levs) := listen this k in
  let '(res, k', evs) := acceptNextConnection fuel t this k in
  forall fd ev timeout r errno,
    In (EvPoll fd ev timeout r errno) evs ->
    (fd = listeningFd_ this1 /\ ev = POLLIN /\ lcode = OK /\ 0 < t) /\
    exists start rest now,
      evs = levs ++ EvNow start :: rest /\ In (EvNow now) rest /\
      to_int (durationMillis (now - start)) < t /\
      timeout = to_int (t - to_int (durationMillis (now - start))) /\
      (t < 2 ^ 31 ->
       timeout <> 0 /\
       (0 <= to_int (durationMillis (now - start)) -> 0 < timeout <= t) /\
       (to_int (durationMillis (now - start)) <= t - 2 ^ 31 -> timeout < 0)).
Proof.
  rewrite acceptNextConnection_eq.
  pose proof (listen_events this k) as Hev.
  destruct (listen this k) as [[[lcode this1] k1] levs].
  unfold events_of in Hev. simpl in Hev.
  assert (Hl : forall fd ev timeout r errno,
             ~ In (EvPoll fd ev timeout r errno) levs).
  { rewrite forallb_forall in Hev. intros fd ev timeout r errno Hin.
    specialize (Hev _ Hin). discriminate Hev. }
  assert (Htail : forall k0 fd ev timeout r errno,
             ~ In (EvPoll fd ev timeout r errno)
                  (events_of (acceptTail this1 k0))).
  { intros k0 fd ev timeout r errno Hin.
    pose proof (acceptTail_cases this1 k0) as Ht.
    destruct (acceptTail this1 k0) as [[[c s] k4] evs4].
    unfold events_of in Hin. simpl in Hin.
    assert (Hs : In (EvPoll fd ev timeout r errno) (syscalls evs4))
      by (apply in_syscalls; auto).
    destruct Ht as (_ & _ & _ & [(_ & _ & E)|(_ & _ & E)]);
      rewrite E in Hs; simpl in Hs; intuition discriminate. }
  destruct lcode;
    try (intros fd ev timeout r errno Hin; exfalso; eapply Hl; eauto; fail).
  destruct (Z.ltb_spec 0 t) as [Hlt|Hge].
  - destruct (os_now k1) as [start k2].
    pose proof (pollLoop_wait_trace fuel t start this1 k2) as Hw.
    destruct (pollLoop fuel t start this1 k2) as [[exit k3] evs3].
    assert (Hall : forall tl fd ev timeout r errno,
               (forall fd ev timeout r errno,
                   ~ In (EvPoll fd ev timeout r errno) tl) ->
               In (EvPoll fd ev timeout r errno)
                  (levs ++ EvNow start :: evs3 ++ tl) ->
               (fd = listeningFd_ this1 /\ ev = POLLIN /\ OK = OK /\ 0 < t) /\
               exists start' rest now,
                 levs ++ EvNow start :: evs3 ++ tl =
                 levs ++ EvNow start' :: rest /\
                 In (EvNow now) rest /\
                 to_int (durationMillis (now - start')) < t /\
                 timeout =
                 to_int (t - to_int (durationMillis (now - start'))) /\
                 (t < 2 ^ 31 ->
                  timeout <> 0 /\
                  (0 <= to_int (durationMillis (now - start')) ->
                   0 < timeout <= t) /\
                  (to_int (durationMillis (now - start')) <= t - 2 ^ 31 ->
                   timeout < 0))).
    { intros tl fd ev timeout r errno Htl Hin.
      apply in_app_iff in Hin. destruct Hin as [Hin|[Hin|Hin]].
      { exfalso. eapply Hl; eauto. }
      { discriminate Hin. }
      apply in_app_iff in Hin. destruct Hin as [Hin|Hin].
      2:{ exfalso. eapply Htl; eauto. }
      assert (Hs : In (EvPoll fd ev timeout r errno) (syscalls evs3))
        by (apply in_syscalls; auto).
      destruct (wait_trace_events _ _ _ _ _ Hw _ Hs) as (_ & Hp).
      destruct (Hp _ _ _ _ _ eq_refl)
        as (Hfd & Hpoll & now & Hnow & Hel & Hto).
      unfold elapsedMillis in Hel, Hto.
      split; [auto|].
      exists start, (evs3 ++ tl), now.
      split; [reflexivity|].
      split.
      { apply in_app_iff. left. apply in_syscalls in Hnow. tauto. }
      split; [exact Hel|]. split; [exact Hto|].
      intros Hint.
      pose proof (to_int_range (durationMillis (now - start))) as Hr.
      destruct (to_int_remaining (to_int (durationMillis (now - start))) t)
        as (Hnz & Hpos & Hneg); [lia|lia|lia|].
      rewrite Hto. split; [exact Hnz|]. split.
      - intros He. rewrite (Hpos He). lia.
      - intros He. rewrite (Hneg He). lia. }
    destruct exit as [|code|].
    + specialize (Htail k3).
      destruct (acceptTail this1 k3) as [[rr k4] evs4].
      intros fd ev timeout r errno. apply Hall. exact Htail.
    + intros fd ev timeout r errno Hin.
      rewrite <- (app_nil_r evs3). rewrite <- (app_nil_r evs3) in Hin.
      apply (Hall [] fd ev timeout r errno); [intros; intros []|exact Hin].
    + intros fd ev timeout r errno Hin.
      rewrite <- (app_nil_r evs3). rewrite <- (app_nil_r evs3) in Hin.
      apply (Hall [] fd ev timeout r errno); [intros; intros []|exact Hin].
  - specialize (Htail k1).
    destruct (acceptTail this1 k1) as [[rr k4] evs4].
    intros fd ev timeout r errno Hin. exfalso.
    apply in_app_iff in Hin. destruct Hin as [Hin|Hin].
    + eapply Hl; eauto.
    + eapply Htail; eauto.
Qed.

(** X10: whenever [acceptNextConnection] reaches [accept], what [accept]
    returned is stored as connection descriptor, a failure like a
    descriptor, and the method returns [OK] exactly when it was not
    negative. The call is made on the listening descriptor, and the accept
    phase closes nothing: the descriptor of an earlier connection is
    overwritten, not closed. After a failed [accept] a [closeAll] therefore
    closes the listening descriptor only. *)
Theorem accept_result_replaces_connection (fuel : nat) (t : Z)
        (this : ServerSocket) (k : K) :
  let '(lcode, this1, k1, levs) := listen this k in
  let '(res, k', evs) := acceptNextConnection fuel t this k in
  forall a r,
    In (EvAccept a r) evs ->
    exists code this',
      res = Some (code, this') /\ a = listeningFd_ this1 /\
      fd_ this' = r /\
      (code = OK /\ 0 <= r \/ code = CONN_ERROR /\ r < 0) /\
      closed_fds evs = closed_fds levs /\
      (r < 0 ->
       forall k2, closed_fds (events_of (closeAll this' k2)) =
                  [listeningFd_ this1]).
Proof.
  rewrite acceptNextConnection_eq.
  pose proof (listen_events this k) as Hev.
  destruct (listen this k) as [[[lcode this1] k1] levs] eqn:El.
  unfold events_of in Hev. simpl in Hev.
  assert (Hl : forall a r, ~ In (EvAccept a r) levs).
  { rewrite forallb_forall in Hev. intros a r Hin.
    specialize (Hev _ Hin). discriminate Hev. }
  assert (Htail : forall k0 pre,
             (forall a r, ~ In (EvAccept a r) pre) ->
             closed_fds pre = closed_fds levs ->
             lcode = OK ->
             let '(rr, k4, evs4) := acceptTail this1 k0 in
             forall a r,
               In (EvAccept a r) (pre ++ evs4) ->
               exists code this',
                 Some rr = Some (code, this') /\ a = listeningFd_ this1 /\
                 fd_ this' = r /\
                 (code = OK /\ 0 <= r \/ code = CONN_ERROR /\ r < 0) /\
                 closed_fds (pre ++ evs4) = closed_fds levs /\
                 (r < 0 ->
                  forall k2, closed_fds (events_of (closeAll this' k2)) =
                             [listeningFd_ this1])).
  { intros k0 pre Hpre Hcl ->.
    pose proof (listen_ok_positive _ _ _ _ _ El) as Hpos.
    pose proof (acceptTail_cases this1 k0) as Ht.
    destruct (acceptTail this1 k0) as [[[c s] k4] evs4].
    destruct Ht as (Hc4 & _ & Hs & Hcases).
    intros a r Hin. apply in_app_iff in Hin.
    destruct Hin as [Hin|Hin]; [exfalso; eapply Hpre; eauto|].
    assert (Hsys : In (EvAccept a r) (syscalls evs4))
      by (apply in_syscalls; auto).
    exists c, s. split; [reflexivity|].
    rewrite closed_fds_app, Hc4, app_nil_r.
    assert (Har : a = listeningFd_ this1 /\ fd_ s = r /\
                  (c = OK /\ 0 <= r \/ c = CONN_ERROR /\ r < 0)).
    { destruct Hcases as [(-> & Hfd & E)|(-> & Hfd & E)];
        rewrite E in Hsys; simpl in Hsys;
        destruct Hsys as [Hsys|Hsys];
        try (injection Hsys as <- <-; repeat split; auto; fail);
        intuition discriminate. }
    destruct Har as (-> & <- & Hcode).
    split; [reflexivity|]. split; [reflexivity|]. split; [exact Hcode|].
    split; [exact Hcl|].
    intros Hneg k2.
    pose proof (closeAll_spec s k2) as Hspec.
    destruct (closeAll s k2) as [[s' k'] evs'].
    destruct Hspec as (Hcl' & _).
    unfold events_of. simpl. rewrite Hcl'.
    unfold owned_fds. rewrite Hs. simpl.
    destruct (Z.leb_spec 0 (fd_ s)); [lia|].
    destruct (Z.leb_spec 0 (listeningFd_ this1)); [reflexivity|lia]. }
  destruct lcode;
    try (intros a r Hin; exfalso; eapply Hl; eauto; fail).
  destruct (0 <? t).
  - destruct (os_now k1) as [start k2].
    pose proof (pollLoop_wait_trace fuel t start this1 k2) as Hw.
    pose proof (pollLoop_closes_nothing fuel t start this1 k2) as Hcl.
    destruct (pollLoop fuel t start this1 k2) as [[exit k3] evs3].
    unfold events_of in Hcl. simpl in Hcl.
    assert (Hpre : forall a r, ~ In (EvAccept a r)
                                  (levs ++ EvNow start :: evs3)).
    { intros a r Hin. apply in_app_iff in Hin.
      destruct Hin as [Hin|[Hin|Hin]].
      - eapply Hl; eauto.
      - discriminate Hin.
      - assert (Hs : In (EvAccept a r) (syscalls evs3))
          by (apply in_syscalls; auto).
        destruct (wait_trace_events _ _ _ _ _ Hw _ Hs) as (Hwe & _).
        discriminate Hwe. }
    destruct exit as [|code|].
    + specialize (Htail k3 (levs ++ EvNow start :: evs3) Hpre).
      destruct (acceptTail this1 k3) as [[rr k4] evs4].
      rewrite <- app_assoc in Htail. simpl in Htail.
      apply Htail; [|reflexivity].
      rewrite closed_fds_app. simpl. rewrite Hcl. apply app_nil_r.
    + intros a r Hin. exfalso. eapply Hpre; eauto.
    + intros a r Hin. exfalso. eapply Hpre; eauto.
  - specialize (Htail k1 levs Hl eq_refl eq_refl).
    destruct (acceptTail this1 k1) as [[rr k4] evs4].
    exact Htail.
Qed.

End AcceptMore.

(** ** More on the life of an endpoint *)

Section LifecycleMore.
Context {K : Type} `{OS K}.

(** X11: a new endpoint holds no descriptor and the values it was given;
    its hints ask for a passive stream socket, of family [AF_INET] when the
    [ipv4] option is set, whatever [ipv6] says, [AF_INET6] when only [ipv6]
    is set, and any family otherwise. Destroying it right away makes no
    system call. *)
Theorem new_endpoint (options : WdtOptions) (port backlog : Z) (chk : Ptr)
        (k : K) :
  let s := ServerSocket_new options port backlog chk in
  (listeningFd_ s = -1 /\ fd_ s = -1 /\ owned_fds s = []) /\
  (port_ s = port /\ backlog_ s = backlog /\ abortChecker_ s = chk) /\
  (ai_socktype (sa_ s) = SOCK_STREAM /\ ai_flags (sa_ s) = AI_PASSIVE /\
   ai_family (sa_ s) =
   if ipv4 options then AF_INET
   else if ipv6 options then AF_INET6 else 0) /\
  syscalls (events_of (destroy s k)) = [] /\
  value_of (destroy s k) = s.
Proof.
  cbv zeta. split; [repeat split|]. split; [repeat split|].
  split.
  - destruct options as [v6 v4]. destruct v6, v4; repeat split.
  - unfold destroy. rewrite closeAll_absent by (simpl; lia).
    split; reflexivity.
Qed.

(** X12: [closeCurrentConnection] twice. From every state the second call
    makes no system call, returns 0 and changes nothing; after the first
    call there is no connection descriptor. *)
Theorem closeCurrentConnection_twice (this : ServerSocket) (k : K) :
  let '(r1, this1, k1, evs1) := closeCurrentConnection this k in
  let '(r2, this2, k2, evs2) := closeCurrentConnection this1 k1 in
  fd_ this1 < 0 /\ r2 = 0 /\ this2 = this1 /\ k2 = k1 /\ evs2 = [].
Proof.
  unfold closeCurrentConnection. unfold_eff.
  destruct (Z.leb_spec 0 (fd_ this)) as [Hfd|Hfd].
  - destruct (os_close (fd_ this) k) as [r k1]. simpl.
    repeat split; lia.
  - destruct (Z.leb_spec 0 (fd_ this)) as [Hfd'|_]; [lia|].
    repeat split; assumption.
Qed.

(** X13: closing the connection first and then everything makes the same
    system calls, in the same order, as [closeAll] alone, and ends in the
    same state of the object and of the outside world: each descriptor the
    object owned is closed once. *)
Theorem closeCurrentConnection_then_closeAll (this : ServerSocket) (k : K) :
  let '(r1, this1, k1, evs1) := closeCurrentConnection this k in
  let '(this2, k2, evs2) := closeAll this1 k1 in
  let '(this3, k3, evs3) := closeAll this k in
  this2 = this3 /\ k2 = k3 /\
  syscalls (evs1 ++ evs2) = syscalls evs3 /\
  closed_fds (evs1 ++ evs2) = owned_fds this.
Proof.
  destruct this as [p b lfd cfd sa chk].
  unfold closeCurrentConnection, closeAll, owned_fds. unfold_eff. simpl.
  repeat step_eff; try lia;
    repeat match goal with
    | E : (_, _) = (_, _) |- _ => injection E as <- <-
    end;
    try contradiction; repeat split; reflexivity.
Qed.

(** X14: moves keep ownership exclusive. A move assignment hands each
    object the descriptors of the other, and a second one restores both
    objects as they were; a move construction hands all descriptors of the
    source to the new object, which is a copy of the source as it was, and
    leaves the source with none. No descriptor is dropped or held twice. *)
Theorem moves_conserve_descriptors (this that : ServerSocket) :
  let '(this1, that1) := move_assign this that in
  let '(new, moved) := move_construct that in
  move_assign this1 that1 = (this, that) /\
  (owned_fds this1 = owned_fds that /\ owned_fds that1 = owned_fds this) /\
  (new = that /\ owned_fds new = owned_fds that /\ owned_fds moved = []) /\
  backlog_ moved = backlog_ that /\ sa_ moved = sa_ that /\
  abortChecker_ moved = abortChecker_ that.
Proof.
  destruct this as [p b lfd cfd sa chk], that as [p' b' lfd' cfd' sa' chk'].
  rewrite move_assign_spec. unfold move_construct. cbv beta iota zeta.
  rewrite move_assign_spec. simpl. repeat split.
Qed.

End LifecycleMore.

Section InvariantMore.
Context {K : Type} `{OS K}.
Hypothesis socket_posix :
  forall f t p (k : K), -1 <= fst (os_socket f t p k).
Hypothesis accept_posix :
  forall fd (k : K), -1 <= fst (os_accept fd k).

(** X15: the class invariant. On an operating system whose [socket] and
    [accept] return -1 or a descriptor, every method called on an object
    whose two descriptor members are -1 or a descriptor leaves such an
    object: [listen], [acceptNextConnection] with any timeout, the two
    closing methods, [read] and [write], and both moves. *)
Theorem methods_keep_descriptors_valid (this : ServerSocket) (k : K) :
  descriptors_valid this ->
  descriptors_valid (snd (value_of (listen this k))) /\
  (forall fuel t code this',
      value_of (acceptNextConnection fuel t this k) = Some (code, this') ->
      descriptors_valid this') /\
  descriptors_valid (value_of (closeAll this k)) /\
  descriptors_valid (snd (value_of (closeCurrentConnection this k))) /\
  (forall buf n f,
      descriptors_valid (snd (value_of (read this buf n f k))) /\
      descriptors_valid (snd (value_of (write this buf n f k)))) /\
  (forall that,
      descriptors_valid that ->
      descriptors_valid (fst (move_assign this that)) /\
      descriptors_valid (snd (move_assign this that)) /\
      descriptors_valid (fst (move_construct that)) /\
      descriptors_valid (snd (move_construct that))).
Proof.
  intros Hv.
  split; [apply listen_valid; assumption|].
  split.
  { intros fuel t code this' E.
    eapply acceptNextConnection_valid; eauto. }
  split; [apply close_valid; assumption|].
  split; [apply close_valid; assumption|].
  split.
  - intros buf n f. unfold read, write. unfold_eff.
    destruct (os_readWithAbortCheck _ _ _ _ _ k) as [r k1].
    destruct (os_writeWithAbortCheck _ _ _ _ _ k) as [r' k1'].
    split; exact Hv.
  - intros that Hv'. apply move_valid; assumption.
Qed.

End InvariantMore.

(** ** The further theorems at concrete endpoints *)

(** A new endpoint for port 22356. *)
Lemma listen_again_is_noop_witness :
  fst (value_of (listen (ServerSocket_new default_options 22356 1 0)
                        (script [0; 3; 0; 0]))) = OK /\
  exists this',
    snd (value_of (listen (ServerSocket_new default_options 22356 1 0)
                          (script [0; 3; 0; 0]))) = this' /\
    listen this' (script [9]) = ((OK, this'), script [9], []).
Proof.
  pose proof (listen_again_is_noop
                (ServerSocket_new default_options 22356 1 0)
                (script [0; 3; 0; 0])) as P.
  destruct (listen (ServerSocket_new default_options 22356 1 0)
                   (script [0; 3; 0; 0])) as [[[code this'] k'] evs] eqn:E.
  vm_compute in E. injection E as <- <- <- <-.
  split; [reflexivity|].
  eexists. split; [reflexivity|]. exact (P eq_refl (script [9])).
Defined.

Lemma listen_closes_only_own_sockets_witness :
  In 5 (closed_fds (events_of (listen
                                 (ServerSocket_new default_options 22356 1 0)
                                 (script [0; 5; 1; 0; 7; 0; 0])))) /\
  In 5 (opened_fds (events_of (listen
                                 (ServerSocket_new default_options 22356 1 0)
                                 (script [0; 5; 1; 0; 7; 0; 0])))).
Proof.
  assert (H1 : In 5 (closed_fds
                       (events_of
                          (listen (ServerSocket_new default_options 22356 1 0)
                                  (script [0; 5; 1; 0; 7; 0; 0])))))
    by (vm_compute; auto).
  split; [exact H1|].
  exact (listen_closes_only_own_sockets
           (ServerSocket_new default_options 22356 1 0)
           (script [0; 5; 1; 0; 7; 0; 0]) 5 H1).
Defined.

Lemma listen_keeps_or_closes_its_sockets_witness :
  port_ (ServerSocket_new default_options 22356 1 0) <> 0 /\
  listeningFd_ (ServerSocket_new default_options 22356 1 0) = -1 /\
  opened_fds (events_of (listen (ServerSocket_new default_options 22356 1 0)
                                (script [0; 5; 1; 0; 7; 0; 0]))) =
  [5] ++ [7].
Proof.
  assert (H1 : port_ (ServerSocket_new default_options 22356 1 0) <> 0)
    by (simpl; lia).
  assert (H2 : listeningFd_ (ServerSocket_new default_options 22356 1 0) = -1)
    by reflexivity.
  split; [exact H1|]. split; [exact H2|].
  pose proof (listen_keeps_or_closes_its_sockets
                (ServerSocket_new default_options 22356 1 0)
                (script [0; 5; 1; 0; 7; 0; 0]) H1 H2) as P.
  destruct (listen (ServerSocket_new default_options 22356 1 0)
                   (script [0; 5; 1; 0; 7; 0; 0]))
    as [[[code this'] k'] evs] eqn:E.
  vm_compute in E. injection E as <- <- <- <-.
  exact P.
Defined.

Lemma listen_first_bind_wins_witness :
  port_ (ServerSocket_new default_options 22356 1 0) <> 0 /\
  listeningFd_ (ServerSocket_new default_options 22356 1 0) <= 0 /\
  fst (value_of (listen (ServerSocket_new default_options 22356 1 0)
                        (script [0; 5; 1; 0; 7; 0; 0]))) = OK /\
  In (sa_ (snd (value_of (listen (ServerSocket_new default_options 22356 1 0)
                                 (script [0; 5; 1; 0; 7; 0; 0])))))
     [candidate4; candidate6].
Proof.
  assert (H1 : port_ (ServerSocket_new default_options 22356 1 0) <> 0)
    by (simpl; lia).
  assert (H2 : listeningFd_ (ServerSocket_new default_options 22356 1 0) <= 0)
    by (simpl; lia).
  split; [exact H1|]. split; [exact H2|].
  pose proof (listen_first_bind_wins
                (ServerSocket_new default_options 22356 1 0)
                (script [0; 5; 1; 0; 7; 0; 0]) H1 H2) as P.
  destruct (listen (ServerSocket_new default_options 22356 1 0)
                   (script [0; 5; 1; 0; 7; 0; 0]))
    as [[[code this'] k'] evs] eqn:E.
  vm_compute in E. injection E as <- <- <- <-.
  destruct (P eq_refl) as (pre & info & post & Hl & Hsa & _).
  split; [reflexivity|].
  cbv [value_of fst snd]. rewrite Hsa. simpl in Hl. rewrite Hl. apply in_elt.
Defined.

Lemma acceptNextConnection_listen_error_witness :
  fst (value_of (listen (ServerSocket_new default_options 22356 1 0)
                        (script [8]))) <> OK /\
  value_of (acceptNextConnection 5 100
                                 (ServerSocket_new default_options 22356 1 0)
                                 (script [8])) =
  Some (CONN_ERROR, ServerSocket_new default_options 22356 1 0).
Proof.
  pose proof (acceptNextConnection_listen_error
                5 100 (ServerSocket_new default_options 22356 1 0)
                (script [8])) as P.
  destruct (listen (ServerSocket_new default_options 22356 1 0) (script [8]))
    as [[[lcode this1] k1] levs] eqn:E.
  vm_compute in E. injection E as <- <- <- <-.
  destruct (acceptNextConnection 5 100
                                 (ServerSocket_new default_options 22356 1 0)
                                 (script [8])) as [[res k'] evs].
  assert (Hne : CONN_ERROR <> OK) by discriminate.
  destruct P as (P & _). destruct (P Hne) as (-> & _).
  split; [exact Hne|reflexivity].
Defined.

Lemma acceptNextConnection_without_timeout_witness :
  0 <= 0 /\
  value_of (acceptNextConnection 5 0 connected_socket (script [7])) <> None.
Proof.
  assert (Ht : 0 <= 0) by lia.
  split; [exact Ht|].
  pose proof (acceptNextConnection_without_timeout
                5 0 connected_socket (script [7]) Ht) as P.
  destruct (acceptNextConnection 5 0 connected_socket (script [7]))
    as [[res k'] evs].
  destruct P as (P & _). exact P.
Defined.

Lemma acceptNextConnection_polls_witness :
  In (EvPoll 3 POLLIN 90 (-1) EINTR)
     (events_of (acceptNextConnection
                   5 100 connected_socket
                   (script [0; 10; -1; 4; 30; -1; 4; 60; 1; 7]))) /\
  90 <> 0.
Proof.
  assert (H1 : In (EvPoll 3 POLLIN 90 (-1) EINTR)
                  (events_of (acceptNextConnection
                                5 100 connected_socket
                                (script [0; 10; -1; 4; 30; -1; 4; 60; 1; 7]))))
    by (vm_compute; auto 10).
  split; [exact H1|].
  pose proof (acceptNextConnection_polls
                5 100 connected_socket
                (script [0; 10; -1; 4; 30; -1; 4; 60; 1; 7])) as P.
  destruct (listen connected_socket
                   (script [0; 10; -1; 4; 30; -1; 4; 60; 1; 7]))
    as [[[lcode this1] k1] levs].
  destruct (acceptNextConnection 5 100 connected_socket
                                 (script [0; 10; -1; 4; 30; -1; 4; 60; 1; 7]))
    as [[res k'] evs].
  destruct (P _ _ _ _ _ H1)
    as (_ & start & rest & now & _ & _ & _ & _ & Hint).
  destruct Hint as (Hnz & _); [lia|exact Hnz].
Defined.

(** [connected_socket] holds the connection 4 when [accept] fails. *)
Lemma accept_result_replaces_connection_witness :
  In (EvAccept 3 (-1))
     (events_of (acceptNextConnection 5 0 connected_socket (script [-1]))) /\
  exists this',
    value_of (acceptNextConnection 5 0 connected_socket (script [-1])) =
    Some (CONN_ERROR, this') /\
    fd_ this' = -1 /\
    closed_fds (events_of (closeAll this' (script [0]))) = [3].
Proof.
  assert (H1 : In (EvAccept 3 (-1))
                  (events_of (acceptNextConnection 5 0 connected_socket
                                                   (script [-1]))))
    by (vm_compute; auto 10).
  split; [exact H1|].
  pose proof (accept_result_replaces_connection
                5 0 connected_socket (script [-1])) as P.
  destruct (listen connected_socket (script [-1]))
    as [[[lcode this1] k1] levs] eqn:El.
  vm_compute in El. injection El as <- <- <- <-.
  destruct (acceptNextConnection 5 0 connected_socket (script [-1]))
    as [[res k'] evs].
  destruct (P _ _ H1) as (code & this' & -> & _ & Hfd & Hcode & _ & Hclose).
  destruct Hcode as [(_ & Hr)|(-> & _)]; [lia|].
  exists this'. split; [reflexivity|]. split; [exact Hfd|].
  apply Hclose. lia.
Defined.

(** On [Posix_OS] a scripted answer of -7 to [socket] is read as -1. *)
Lemma methods_keep_descriptors_valid_witness :
  (forall f t p (k : Script), -1 <= fst (@os_socket Script Posix_OS f t p k)) /\
  (forall fd (k : Script), -1 <= fst (@os_accept Script Posix_OS fd k)) /\
  descriptors_valid (ServerSocket_new default_options 22356 1 0) /\
  descriptors_valid
    (snd (value_of (@listen Script Posix_OS
                            (ServerSocket_new default_options 22356 1 0)
                            (script [0; -7; 3; 0; 0])))).
Proof.
  assert (Hs : forall f t p (k : Script),
             -1 <= fst (@os_socket Script Posix_OS f t p k)).
  { intros f t p k. simpl. unfold posix_pop.
    destruct (pop k) as [r k']. simpl. lia. }
  assert (Ha : forall fd (k : Script),
             -1 <= fst (@os_accept Script Posix_OS fd k)).
  { intros fd k. simpl. unfold posix_pop.
    destruct (pop k) as [r k']. simpl. lia. }
  assert (Hv : descriptors_valid (ServerSocket_new default_options 22356 1 0)).
  { unfold descriptors_valid. simpl. lia. }
  split; [exact Hs|]. split; [exact Ha|]. split; [exact Hv|].
  exact (proj1 (@methods_keep_descriptors_valid
                  Script Posix_OS Hs Ha
                  (ServerSocket_new default_options 22356 1 0)
                  (script [0; -7; 3; 0; 0]) Hv)).
Defined.
